(** * azext_iot: the MQTT telemetry driver and the IoT Central event monitor

    A shallow embedding of
      - [azext_iot/operations/_mqtt.py]   (class [mqtt_client_wrap]),
      - [azext_iot/operations/central.py] ([iot_central_monitor_events]),
      - [azext_iot/common/utility.py]     ([validate_min_python_version]),
    followed by the properties of the publish loop, of the connect callback
    and of the monitor entry point.

    Python integers are unbounded, so they are [Z].  Text and byte payloads
    are [string].  A Python exception is a value of [exn]; code that may
    raise returns a [result].  Calls into collaborators (the paho client,
    [six.print_], [time.sleep], the event-hub executor) are recorded, in
    program order, as a list of events. *)

From Stdlib Require Import ZArith List Lia Bool.
From stdpp Require Import base gmap strings list pretty.
Import ListNotations.
Local Open Scope Z_scope.

(** ** Exceptions and results *)

Inductive exn : Type :=
| KeyError (key : Z)            (* dict lookup of a missing key *)
| ValueError (msg : string)
| CLIError (msg : string)       (* knack.util.CLIError *)
| SystemExit (msg : string)     (* sys.exit(msg) *)
| External (what : string).     (* raised inside a collaborator *)

Inductive result (A : Type) : Type :=
| Ok (a : A)
| Raise (e : exn).
Arguments Ok {A} a.
Arguments Raise {A} e.

Module Mqtt.

(** ** Observable calls of the driver *)

Inductive event : Type :=
| Print (line : string)                        (* six.print_(line) *)
| Subscribe (topic : string)                   (* client.subscribe(topic) *)
| LoopStart                                    (* client.loop_start() *)
| LoopStop                                     (* client.loop_stop() *)
| ReadConnected (b : bool)                     (* is_connected() returned b *)
| Publish (topic : string) (payload : string)  (* client.publish(topic, payload) *)
| Sleep (secs : Z).                            (* sleep(secs) returned *)

(** [connection_result], the module-level dict from result code to reason. *)
Definition connection_result : gmap Z string :=
  list_to_map
    [ (0, "success");
      (1, "refused - incorrect protocol version");
      (2, "refused - invalid client id");
      (3, "refused - server unavailable");
      (4, "refused - bad username or password");
      (5, "refused - not authorized") ].

(** The instance attributes of [mqtt_client_wrap] that the methods read or
    write.  [loop_running] is the state of the paho client's network thread:
    [loop_start] starts it, [loop_stop] stops and joins it. *)
Record mqtt_client_wrap : Type := {
  target_entity : string;
  device_id : string;
  topic_publish : string;
  topic_receive : string;
  connected : bool;
  loop_running : bool
}.

(** [__init__]: the topics are formatted from the device id and the flag
    starts out [False]; the network thread is not started yet.  (The SAS
    token, the TLS settings and the call [client.connect] configure the paho
    client and leave these attributes alone.) *)
Definition init (entity dev : string) : mqtt_client_wrap :=
  {| target_entity := entity;
     device_id := dev;
     topic_publish := "devices/" +:+ dev +:+ "/messages/events/";
     topic_receive := "devices/" +:+ dev +:+ "/messages/devicebound/#";
     connected := false;
     loop_running := false |}.

Definition set_connected (b : bool) (self : mqtt_client_wrap) : mqtt_client_wrap :=
  {| target_entity := target_entity self;
     device_id := device_id self;
     topic_publish := topic_publish self;
     topic_receive := topic_receive self;
     connected := b;
     loop_running := loop_running self |}.

Definition set_loop_running (b : bool) (self : mqtt_client_wrap) : mqtt_client_wrap :=
  {| target_entity := target_entity self;
     device_id := device_id self;
     topic_publish := topic_publish self;
     topic_receive := topic_receive self;
     connected := connected self;
     loop_running := b |}.

(** [on_connect(self, client, userdata, flags, rc)].  The format argument
    [connection_result[rc]] is evaluated first, so a missing key raises
    before anything is printed or assigned. *)
Definition on_connect (self : mqtt_client_wrap) (rc : Z)
  : result (mqtt_client_wrap * list event) :=
  match connection_result !! rc with
  | None => Raise (KeyError rc)
  | Some reason =>
      Ok (set_connected true self,
          [ Print ("Connected to target IoT Hub MQTT broker with result: " +:+ reason);
            Subscribe (topic_receive self);
            Print "Subscribed to device bound message queue" ])
  end.

(** [is_connected(self)] *)
Definition is_connected (self : mqtt_client_wrap) : bool := connected self.

(** [time.sleep]: a negative length raises [ValueError]. *)
Definition sleep (secs : Z) : result (list event) :=
  if secs <? 0 then Raise (ValueError "sleep length must be non-negative")
  else Ok [Sleep secs].

(** ** The world around the control thread

    [handshakes n] are the result codes of the handshake completions that the
    network thread hands to [on_connect] before the [n]-th loop iteration
    reads the flag; [publish_fault n] is the exception, if any, with which
    [client.publish] fails in the [n]-th iteration.  Callbacks are placed at
    iteration boundaries: [on_connect] only ever raises the flag, so a
    callback that arrives between the read and the publish of an iteration
    changes nothing that iteration observes. *)
Record world : Type := {
  handshakes : nat -> list Z;
  publish_fault : nat -> option exn
}.

(** One callback on the network thread.  An exception raised by the callback
    stays on that thread: the driver is left as it was. *)
Definition io_deliver (acc : mqtt_client_wrap * list event) (rc : Z)
  : mqtt_client_wrap * list event :=
  match on_connect acc.1 rc with
  | Ok (self', evs) => (self', acc.2 ++ evs)
  | Raise _ => acc
  end.

Definition io_thread (w : world) (n : nat) (self : mqtt_client_wrap)
  : mqtt_client_wrap * list event :=
  fold_left io_deliver (handshakes w n) (self, []).

(** ** [execute] *)

Section Execute.

(** [data]: the message source handed to [execute]; [generate] is its
    [data.generate(True)], which yields a payload and the source's next
    state, or raises. *)
Context {Src : Type}.
Variable generate : Src -> result (string * Src).
Variable w : world.

(** The local state of the loop: [self], [data], the counter [msgs], and
    [tick], the number of iterations completed so far. *)
Record loop_state : Type := {
  self : mqtt_client_wrap;
  data : Src;
  msgs : Z;
  tick : nat
}.

Inductive step : Type :=
| Continue (st : loop_state)        (* fell through to the next iteration *)
| Break (st : loop_state)           (* [break] *)
| Throw (e : exn) (st : loop_state).

Definition with_self (s : mqtt_client_wrap) (st : loop_state) : loop_state :=
  {| self := s; data := data st; msgs := msgs st; tick := tick st |}.

(** The tail of an iteration: [sleep(publish_delay)]. *)
Definition sleep_then (publish_delay : Z) (st : loop_state) (evs : list event)
  : step * list event :=
  match sleep publish_delay with
  | Raise e => (Throw e st, evs)
  | Ok sevs =>
      (Continue {| self := self st; data := data st; msgs := msgs st;
                   tick := S (tick st) |},
       evs ++ sevs)
  end.

(** The body of [while True]. *)
Definition loop_body (publish_delay msg_count : Z) (st : loop_state)
  : step * list event :=
  let '(self1, io_evs) := io_thread w (tick st) (self st) in
  let c := is_connected self1 in
  let evs0 := io_evs ++ [ReadConnected c] in
  let st1 := with_self self1 st in
  if c then
    if msgs st <? msg_count then
      let st2 := {| self := self1; data := data st; msgs := msgs st + 1;
                    tick := tick st |} in
      match generate (data st) with
      | Raise e => (Throw e st2, evs0)
      | Ok (payload, data') =>
          let st3 := {| self := self1; data := data'; msgs := msgs st + 1;
                        tick := tick st |} in
          let evs1 := evs0 ++ [Publish (topic_publish self1) payload] in
          match publish_fault w (tick st) with
          | Some e => (Throw e st3, evs1)
          | None => sleep_then publish_delay st3 evs1
          end
      end
    else (Break st1, evs0)
  else sleep_then publish_delay st1 evs0.

Definition state_of (s : step) : loop_state :=
  match s with Continue st | Break st | Throw _ st => st end.

Inductive outcome : Type :=
| Returned             (* the call returned *)
| Raised (e : exn)     (* the call raised [e] *)
| Running.             (* still inside the loop when the fuel ran out *)

Record run : Type := {
  outcome_of : outcome;
  final : loop_state;
  trace : list event
}.

Definition prepend (evs : list event) (r : run) : run :=
  {| outcome_of := outcome_of r; final := final r; trace := evs ++ trace r |}.

Fixpoint loop (fuel : nat) (publish_delay msg_count : Z) (st : loop_state) : run :=
  match fuel with
  | O => {| outcome_of := Running; final := st; trace := [] |}
  | S fuel' =>
      match loop_body publish_delay msg_count st with
      | (Continue st', evs) => prepend evs (loop fuel' publish_delay msg_count st')
      | (Break st', evs) => {| outcome_of := Returned; final := st'; trace := evs |}
      | (Throw e st', evs) => {| outcome_of := Raised e; final := st'; trace := evs |}
      end
  end.

(** [execute(self, data, publish_delay=2, msg_count=100)]: [msgs = 0],
    [loop_start()], the loop, and [loop_stop()] in the [finally] clause.
    [except Exception as x: raise x] re-raises what the loop raised. *)
Definition execute (fuel : nat) (self0 : mqtt_client_wrap) (data0 : Src)
    (publish_delay msg_count : Z) : run :=
  let st0 := {| self := set_loop_running true self0; data := data0;
                msgs := 0; tick := 0 |} in
  let r := loop fuel publish_delay msg_count st0 in
  match outcome_of r with
  | Running =>
      {| outcome_of := Running; final := final r; trace := LoopStart :: trace r |}
  | o =>
      {| outcome_of := o;
         final := with_self (set_loop_running false (self (final r))) (final r);
         trace := LoopStart :: trace r ++ [LoopStop] |}
  end.

End Execute.

Arguments Continue {Src} st.
Arguments Break {Src} st.
Arguments Throw {Src} e st.

(** A finite message source: a list of payloads; drawing from the empty
    list raises. *)
Definition list_generate (items : list string) : result (string * list string) :=
  match items with
  | [] => Raise (External "StopIteration")
  | payload :: rest => Ok (payload, rest)
  end.

(** The driver as iteration [t + k] of the loop reads it, when iteration [t]
    started from [self0]: only the network thread writes to it. *)
Fixpoint io_from (w : world) (t k : nat) (self0 : mqtt_client_wrap) : mqtt_client_wrap :=
  match k with
  | O => (io_thread w t self0).1
  | S k' => io_from w (S t) k' (io_thread w t self0).1
  end.

(** No publish call fails. *)
Definition fault_free (w : world) : Prop := forall n, publish_fault w n = None.

(** Sample worlds.  [silent]: the broker never answers.  [accepting k]: the
    handshake succeeds (result code 0) just before iteration [k].
    [faulty k]: as [accepting 0], and the publish of iteration [k] fails. *)
Definition silent : world :=
  {| handshakes := fun _ => []; publish_fault := fun _ => None |}.

Definition accepting (k : nat) : world :=
  {| handshakes := fun n => if Nat.eqb n k then [0] else [];
     publish_fault := fun _ => None |}.

Definition refusing : world :=
  {| handshakes := fun n => if Nat.eqb n 0 then [4] else [];
     publish_fault := fun _ => None |}.

Definition faulty (k : nat) : world :=
  {| handshakes := fun n => if Nat.eqb n 0 then [0] else [];
     publish_fault := fun n => if Nat.eqb n k then Some (External "TransportError")
                               else None |}.

(** Projections of a trace. *)
Definition is_publish (e : event) : bool :=
  match e with Publish _ _ => true | _ => false end.
Definition is_sleep (e : event) : bool :=
  match e with Sleep _ => true | _ => false end.
Definition is_loop_stop (e : event) : bool :=
  match e with LoopStop => true | _ => false end.

Definition publishes (tr : list event) : list event := List.filter is_publish tr.
Definition sleeps (tr : list event) : list event := List.filter is_sleep tr.

Definition finished (o : outcome) : bool :=
  match o with Running => false | _ => true end.

(** Every [Publish] in the trace comes directly after a read of the flag
    that returned [True]. *)
Definition gated (tr : list event) : Prop :=
  forall pre post topic payload,
    tr = pre ++ Publish topic payload :: post ->
    exists pre', pre = pre' ++ [ReadConnected true].

(** Events produced on the network thread. *)
Definition is_io_event (e : event) : bool :=
  match e with Print _ | Subscribe _ => true | _ => false end.

(** What every callback delivery preserves. *)
Record io_inv (self0 : mqtt_client_wrap) (acc : mqtt_client_wrap * list event) : Prop := {
  io_topic_publish : topic_publish acc.1 = topic_publish self0;
  io_topic_receive : topic_receive acc.1 = topic_receive self0;
  io_loop_running : loop_running acc.1 = loop_running self0;
  io_connected_mono : connected self0 = true -> connected acc.1 = true;
  io_events : forallb is_io_event acc.2 = true
}.

(** [e] uses the driver's own topics: publishes go to [pub], subscriptions
    to [recv]. *)
Definition on_topic (pub recv : string) (e : event) : Prop :=
  match e with
  | Publish topic _ => topic = pub
  | Subscribe topic => topic = recv
  | _ => True
  end.

(** A trace in which every [Publish] is the last event or is followed at
    once by [Sleep secs]. *)
Inductive paced (secs : Z) : list event -> Prop :=
| paced_nil : paced secs []
| paced_last topic payload : paced secs [Publish topic payload]
| paced_other e tr : is_publish e = false -> paced secs tr -> paced secs (e :: tr)
| paced_publish topic payload tr :
    paced secs tr -> paced secs (Publish topic payload :: Sleep secs :: tr).

(** The result codes that [connection_result] knows. *)
Definition known_code (rc : Z) : bool := (0 <=? rc) && (rc <=? 5).

Definition is_loop_start (e : event) : bool :=
  match e with LoopStart => true | _ => false end.

End Mqtt.

Module Central.

(** ** [azext_iot.common.utility.validate_min_python_version] *)

(** [sys.version_info] *)
Record version_info : Type := { major : Z; minor : Z }.

(** A Python value used as a condition: [None] and the empty string are
    falsy. *)
Definition truthy_str (s : option string) : bool :=
  match s with
  | Some m => negb (String.eqb m "")
  | None => false
  end.

Definition validate_min_python_version (version : version_info)
    (major_req minor_req : Z) (error_msg : option string) (exit_on_fail : bool)
  : result bool :=
  if major_req <? major version then Ok true
  else
    let res := if major_req =? major version then minor_req <=? minor version
               else false in
    if negb res && exit_on_fail then
      let msg := if truthy_str error_msg then default "" error_msg
                 else "Python version " +:+ pretty major_req +:+ "." +:+
                      pretty minor_req +:+
                      " or higher required for this functionality." in
      Raise (SystemExit msg)
    else Ok res.

(** ** [iot_central_monitor_events] *)

(** The keyword arguments of the call [events3.executor(...)]. *)
Record executor_args : Type := {
  x_consumer_group : string;
  x_enqueued_time : Z;
  x_central_target : string;
  x_properties : list string;
  x_timeout : Z;
  x_device_id : option string;
  x_output : string
}.

(** Calls that leave the handler, in program order. *)
Inductive call : Type :=
| EnsureUamqp (repair : bool)                 (* ensure_uamqp(config, repair_uamqp) *)
| ImportEvents3                               (* importlib.import_module(...) *)
| GetEventHubTarget (app_id : string)         (* get_event_hub_target_from_central_app_id *)
| Executor (args : executor_args).            (* events3.executor(...) *)

(** What the handler reads from its surroundings: the interpreter version,
    the clock ([datetime.utcnow()] as milliseconds since the epoch), the
    [--output] setting of the invocation, and the behaviour of the
    collaborators it calls. *)
Record env : Type := {
  python : version_info;
  utcnow_ms : Z;
  invocation_output : option string;
  ensure_uamqp_fault : option exn;
  lookup_target : string -> result string;
  executor_fault : option exn
}.

(** The parameters of the command, with the defaults of the signature. *)
Record monitor_args : Type := {
  app_id : string;
  arg_device_id : option string;
  consumer_group : string;
  timeout : Z;
  repair_uamqp : bool;
  enqueued_time : option Z;
  properties : option (list string)
}.

Definition default_args (app : string) : monitor_args :=
  {| app_id := app; arg_device_id := None; consumer_group := "$Default";
     timeout := 300; repair_uamqp := false; enqueued_time := None;
     properties := None |}.

(** [_calculate_millisec_since_unix_epoch_utc()] *)
Definition _calculate_millisec_since_unix_epoch_utc (e : env) : Z := utcnow_ms e.

(** [if not enqueued_time]: [None] and [0] are falsy. *)
Definition truthy_int (n : option Z) : bool :=
  match n with
  | Some v => negb (v =? 0)
  | None => false
  end.

Definition truthy_list {A : Type} (l : option (list A)) : bool :=
  match l with
  | Some (_ :: _) => true
  | _ => false
  end.

Definition iot_central_monitor_events (e : env) (a : monitor_args)
  : result unit * list call :=
  match validate_min_python_version (python e) 3 5 None true with
  | Raise x => (Raise x, [])
  | Ok _ =>
      if timeout a <? 0 then
        (Raise (CLIError "Monitoring timeout must be 0 (inf) or greater."), [])
      else
        let timeout_ms := timeout a * 1000 in
        let output := if truthy_str (invocation_output e)
                      then default "" (invocation_output e) else "json" in
        match ensure_uamqp_fault e with
        | Some x => (Raise x, [EnsureUamqp (repair_uamqp a)])
        | None =>
            let props := if truthy_list (properties a)
                         then default [] (properties a) else [] in
            let start := if truthy_int (enqueued_time a)
                         then default 0 (enqueued_time a)
                         else _calculate_millisec_since_unix_epoch_utc e in
            match lookup_target e (app_id a) with
            | Raise x =>
                (Raise x, [EnsureUamqp (repair_uamqp a); ImportEvents3;
                           GetEventHubTarget (app_id a)])
            | Ok target =>
                let xa := {| x_consumer_group := consumer_group a;
                             x_enqueued_time := start;
                             x_central_target := target;
                             x_properties := props;
                             x_timeout := timeout_ms;
                             x_device_id := arg_device_id a;
                             x_output := output |} in
                let calls := [EnsureUamqp (repair_uamqp a); ImportEvents3;
                              GetEventHubTarget (app_id a); Executor xa] in
                match executor_fault e with
                | Some x => (Raise x, calls)
                | None => (Ok tt, calls)
                end
            end
        end
  end.

(** The arguments of the [events3.executor] calls in a list of calls. *)
Definition executor_calls (cs : list call) : list executor_args :=
  omap (fun c => match c with Executor xa => Some xa | _ => None end) cs.

(** Modelled from the spec: [events3.executor] is not among the sources; the
    specification reads its timeout argument as [timeoutMs == 0] means wait
    forever, any other value being the inactivity window in milliseconds. *)
Inductive wait_policy : Type :=
| WaitForever
| WaitAtMost (ms : Z).

Definition executor_wait (timeout_ms : Z) : wait_policy :=
  if timeout_ms =? 0 then WaitForever else WaitAtMost timeout_ms.

(** The interpreter is Python 3.5 or later. *)
Definition supported (v : version_info) : Prop :=
  3 < major v \/ (major v = 3 /\ 5 <= minor v).

(** Every collaborator the handler calls before the executor succeeds, and
    the app id resolves to [target]. *)
Definition cooperative (e : env) (a : monitor_args) (target : string) : Prop :=
  supported (python e) /\ ensure_uamqp_fault e = None /\
  lookup_target e (app_id a) = Ok target.

Definition set_timeout (t : Z) (a : monitor_args) : monitor_args :=
  {| app_id := app_id a; arg_device_id := arg_device_id a;
     consumer_group := consumer_group a; timeout := t;
     repair_uamqp := repair_uamqp a; enqueued_time := enqueued_time a;
     properties := properties a |}.

Definition set_enqueued_time (t : option Z) (a : monitor_args) : monitor_args :=
  {| app_id := app_id a; arg_device_id := arg_device_id a;
     consumer_group := consumer_group a; timeout := timeout a;
     repair_uamqp := repair_uamqp a; enqueued_time := t;
     properties := properties a |}.

(** A sample environment on an interpreter that is too old: Python 2.7. *)
Definition legacy_env : env :=
  {| python := {| major := 2; minor := 7 |};
     utcnow_ms := 1700000000000;
     invocation_output := Some "table";
     ensure_uamqp_fault := None;
     lookup_target := fun app => Ok ("sb://" +:+ app);
     executor_fault := None |}.

(** A sample environment: Python 3.8, a fixed clock, every collaborator
    succeeding. *)
Definition sample_env : env :=
  {| python := {| major := 3; minor := 8 |};
     utcnow_ms := 1700000000000;
     invocation_output := None;
     ensure_uamqp_fault := None;
     lookup_target := fun app => Ok ("sb://" +:+ app);
     executor_fault := None |}.

End Central.

(** ** [azext_iot.common.utility]: string and dictionary helpers *)

Module Utility.

(** *** Python string operations *)

(** [s[n:]] *)
Fixpoint string_drop (n : nat) (s : string) : string :=
  match n, s with
  | O, _ => s
  | S n', String _ s' => string_drop n' s'
  | S _, EmptyString => EmptyString
  end.

(** [s.startswith(prefix)] *)
Definition startswith (s prefix : string) : bool := String.prefix prefix s.

(** [c in s], for a single character [c] *)
Fixpoint contains (c : Ascii.ascii) (s : string) : bool :=
  match s with
  | EmptyString => false
  | String c' s' => Ascii.eqb c' c || contains c s'
  end.

(** [s.split(sep)], for a single character [sep]: one piece more than
    there are separators. *)
Fixpoint split (sep : Ascii.ascii) (s : string) : list string :=
  match s with
  | EmptyString => [EmptyString]
  | String c s' =>
      if Ascii.eqb c sep then EmptyString :: split sep s'
      else match split sep s' with
           | piece :: pieces => String c piece :: pieces
           | [] => [String c EmptyString]
           end
  end.

(** [s.split(sep, 1)]: cut at the first separator only. *)
Fixpoint split_once (sep : Ascii.ascii) (s : string) : list string :=
  match s with
  | EmptyString => [EmptyString]
  | String c s' =>
      if Ascii.eqb c sep then [EmptyString; s']
      else match split_once sep s' with
           | piece :: pieces => String c piece :: pieces
           | [] => [String c EmptyString]
           end
  end.

(** [sep.join(pieces)] *)
Fixpoint join (sep : string) (pieces : list string) : string :=
  match pieces with
  | [] => EmptyString
  | [piece] => piece
  | piece :: rest => piece +:+ sep +:+ join sep rest
  end.

(** *** [trim_from_start] *)

Definition trim_from_start (s substring : string) : string :=
  if startswith s substring then string_drop (String.length substring) s else s.

(** *** [validate_key_value_pairs] *)

(** The characters [;] and [=]. *)
Definition semicolon : Ascii.ascii := Ascii.ascii_of_nat 59.
Definition equals_sign : Ascii.ascii := Ascii.ascii_of_nat 61.

(** [dict(pairs)] started from [acc]: every element must have exactly two
    items, a later key overrides an earlier one. *)
Fixpoint dict_of (pairs : list (list string)) (acc : gmap string string)
  : result (gmap string string) :=
  match pairs with
  | [] => Ok acc
  | [k; v] :: rest => dict_of rest (<[k := v]> acc)
  | _ :: _ =>
      Raise (ValueError "dictionary update sequence element has the wrong length")
  end.

Definition validate_key_value_pairs (text : option string)
  : result (option (gmap string string)) :=
  match text with
  | None => Ok None
  | Some s =>
      if String.eqb s "" then Ok None
      else
        let kv_list := List.filter (contains equals_sign) (split semicolon s) in
        match dict_of (List.map (split_once equals_sign) kv_list) ∅ with
        | Ok d => Ok (Some d)
        | Raise e => Raise e
        end
  end.

(** The text [k1=v1;k2=v2;...] of a list of pairs. *)
Definition render_pairs (kvs : list (string * string)) : string :=
  join ";" (List.map (fun kv => kv.1 +:+ "=" +:+ kv.2) kvs).

(** The dictionary that inserting the pairs from left to right builds. *)
Definition dict_of_pairs (kvs : list (string * string)) : gmap string string :=
  fold_left (fun acc kv => <[kv.1 := kv.2]> acc) kvs ∅.

(** *** [dict_clean] *)

(** Python values as [dict_clean] sees them: [None], dictionaries with
    string keys (in insertion order), lists, and everything else. *)
#[local] Unset Elimination Schemes.
Inductive pyval (A : Type) : Type :=
| PNone
| PAtom (a : A)
| PList (items : list (pyval A))
| PDict (entries : list (string * pyval A)).
Arguments PNone {A}.
Arguments PAtom {A} a.
Arguments PList {A} items.
Arguments PDict {A} entries.
#[local] Set Elimination Schemes.

Definition is_none {A : Type} (v : pyval A) : bool :=
  match v with PNone => true | _ => false end.

Fixpoint dict_clean {A : Type} (d : pyval A) : pyval A :=
  match d with
  | PDict entries =>
      PDict ((fix items (l : list (string * pyval A)) : list (string * pyval A) :=
                match l with
                | [] => []
                | (k, v) :: l' =>
                    if is_none v then items l' else (k, dict_clean v) :: items l'
                end) entries)
  | _ => d
  end.

(** The same, entry by entry. *)
Fixpoint clean_entries {A : Type} (l : list (string * pyval A))
  : list (string * pyval A) :=
  match l with
  | [] => []
  | (k, v) :: l' =>
      if is_none v then clean_entries l' else (k, dict_clean v) :: clean_entries l'
  end.

(** No dictionary inside [v], at any depth of dictionary nesting, maps a
    key to [None]. *)
Fixpoint none_free {A : Type} (v : pyval A) : Prop :=
  match v with
  | PDict entries =>
      (fix all (l : list (string * pyval A)) : Prop :=
         match l with
         | [] => True
         | (_, x) :: l' => is_none x = false /\ none_free x /\ all l'
         end) entries
  | _ => True
  end.

(** *** [execute_onthread] *)

Section OnThread.

(** [M]: method pointers; [A]: their arguments. *)
Context {M A : Type}.

(** The keyword arguments, each possibly absent. *)
Record onthread_kwargs : Type := {
  kw_interval : option Z;
  kw_method : option M;
  kw_args : option (list A);
  kw_max_runs : option Z;
  kw_return_handle : option bool
}.

(** What the started thread runs with. *)
Record thread_spec : Type := {
  th_interval : Z;
  th_method : M;
  th_args : list A;
  th_max_runs : option Z;
  th_handle_returned : bool
}.

Inductive thread_event : Type :=
| Wait (secs : Z)                    (* cancellation_token.wait(interval) *)
| Call (method : M) (args : list A). (* the call of method on method_args, taken to return *)

Definition truthy_Z (n : option Z) : bool :=
  match n with Some v => negb (v =? 0) | None => false end.

Definition dquote : string := String (Ascii.ascii_of_nat 34) EmptyString.

(** [execute_onthread] on its keyword arguments, up to [op.start()]. *)
Definition execute_onthread (kw : onthread_kwargs) : result thread_spec :=
  let interval := if truthy_Z (kw_interval kw) then default 0 (kw_interval kw) else 2 in
  match kw_method kw with
  | None =>
      Raise (ValueError ("kwarg " +:+ dquote +:+ "method" +:+ dquote +:+
                         " required for execution"))
  | Some method =>
      Ok {| th_interval := interval;
            th_method := method;
            th_args := default [] (kw_args kw);
            th_max_runs := kw_max_runs kw;
            th_handle_returned := default false (kw_return_handle kw) |}
  end.

Record thread_run : Type := {
  ended : bool;                 (* the thread left its loop *)
  runs : Z;                     (* the local [runs] *)
  thread_trace : list thread_event
}.

(** [method_wrap(max_runs)], the body of the thread.  [cancelled n] is what
    the [n]-th call of [cancellation_token.wait] returns. *)
Fixpoint method_wrap (fuel : nat) (cancelled : nat -> bool) (spec : thread_spec)
    (n : nat) (runs0 : Z) : thread_run :=
  match fuel with
  | O => {| ended := false; runs := runs0; thread_trace := [] |}
  | S fuel' =>
      if cancelled n then
        {| ended := true; runs := runs0; thread_trace := [Wait (th_interval spec)] |}
      else if truthy_Z (th_max_runs spec) && (default 0 (th_max_runs spec) <=? runs0) then
        {| ended := true; runs := runs0; thread_trace := [Wait (th_interval spec)] |}
      else
        let r := method_wrap fuel' cancelled spec (S n) (runs0 + 1) in
        {| ended := ended r; runs := runs r;
           thread_trace := Wait (th_interval spec)
                           :: Call (th_method spec) (th_args spec)
                           :: thread_trace r |}
  end.

Definition is_call (e : thread_event) : bool :=
  match e with Call _ _ => true | Wait _ => false end.

Definition calls (tr : list thread_event) : nat := length (List.filter is_call tr).

(** One round of the thread: a wait, then a call. *)
Definition round (spec : thread_spec) : list thread_event :=
  [Wait (th_interval spec); Call (th_method spec) (th_args spec)].

Fixpoint rounds (k : nat) (spec : thread_spec) : list thread_event :=
  match k with
  | O => []
  | S k' => round spec ++ rounds k' spec
  end.

End OnThread.

Arguments onthread_kwargs : clear implicits.
Arguments thread_spec : clear implicits.
Arguments thread_event : clear implicits.
Arguments thread_run : clear implicits.

(** A sample thread: interval 2, no arguments, the given [max_runs]. *)
Definition sample_spec (max_runs : option Z) : thread_spec unit Z :=
  {| th_interval := 2; th_method := tt; th_args := [];
     th_max_runs := max_runs; th_handle_returned := false |}.

End Utility.

(** * Properties of the telemetry driver *)

Module MqttFacts.
Import Mqtt.

(** ** The connect callback and the network thread *)

Lemma on_connect_known (self : mqtt_client_wrap) (rc : Z) (reason : string) :
  connection_result !! rc = Some reason ->
  on_connect self rc =
    Ok (set_connected true self,
        [ Print ("Connected to target IoT Hub MQTT broker with result: " +:+ reason);
          Subscribe (topic_receive self);
          Print "Subscribed to device bound message queue" ]).
Proof. intros Hrc. unfold on_connect. now rewrite Hrc. Qed.

Lemma on_connect_unknown (self : mqtt_client_wrap) (rc : Z) :
  connection_result !! rc = None -> on_connect self rc = Raise (KeyError rc).
Proof. intros Hrc. unfold on_connect. now rewrite Hrc. Qed.

(** The keys of the table are exactly 0..5. *)
Lemma connection_result_dom (rc : Z) :
  is_Some (connection_result !! rc) <-> 0 <= rc <= 5.
Proof.
  split.
  - intros [reason Hrc].
    destruct (decide (0 <= rc <= 5)) as [|Hout]; [assumption|exfalso].
    unfold connection_result in Hrc. cbn [list_to_map foldr uncurry fst snd] in Hrc.
    repeat (rewrite lookup_insert_ne in Hrc by lia).
    now rewrite lookup_empty in Hrc.
  - intros Hin.
    assert (rc = 0 \/ rc = 1 \/ rc = 2 \/ rc = 3 \/ rc = 4 \/ rc = 5) as Hc by lia.
    repeat (destruct Hc as [-> | Hc]); try subst rc; vm_compute; eauto.
Qed.



Lemma io_deliver_inv self0 acc rc :
  io_inv self0 acc -> io_inv self0 (io_deliver acc rc).
Proof.
  intros [Htp Htr Hlr Hc Hev]. unfold io_deliver, on_connect.
  destruct (connection_result !! rc) as [reason|]; [|now split].
  split; cbn; try assumption; try reflexivity.
  rewrite forallb_app, Hev. reflexivity.
Qed.

Lemma io_thread_inv (w : world) (n : nat) (self0 : mqtt_client_wrap) :
  io_inv self0 (io_thread w n self0).
Proof.
  unfold io_thread.
  assert (io_inv self0 (self0, [])) as Hbase by (now split).
  revert Hbase. generalize (self0, @nil event) as acc.
  induction (handshakes w n) as [|rc rcs IH]; intros acc Hacc; cbn.
  - assumption.
  - apply IH, io_deliver_inv, Hacc.
Qed.

Lemma io_events_filter (f : event -> bool) (evs : list event) :
  (forall e, is_io_event e = true -> f e = false) ->
  forallb is_io_event evs = true -> List.filter f evs = [].
Proof.
  intros Hf. induction evs as [|e evs IH]; cbn; [reflexivity|].
  intros [He Hevs]%andb_true_iff. rewrite (Hf e He). auto.
Qed.

Lemma io_no_publish evs : forallb is_io_event evs = true -> publishes evs = [].
Proof. apply io_events_filter. now intros []. Qed.

Lemma io_no_sleep evs : forallb is_io_event evs = true -> sleeps evs = [].
Proof. apply io_events_filter. now intros []. Qed.

Lemma publishes_app tr1 tr2 : publishes (tr1 ++ tr2) = publishes tr1 ++ publishes tr2.
Proof. apply List.filter_app. Qed.

Lemma sleeps_app tr1 tr2 : sleeps (tr1 ++ tr2) = sleeps tr1 ++ sleeps tr2.
Proof. apply List.filter_app. Qed.

Lemma io_no_loop_stop evs :
  forallb is_io_event evs = true -> List.filter is_loop_stop evs = [].
Proof. apply io_events_filter. now intros []. Qed.

(** C1. The connect callback does not look at what the result code means:
    for result code 4, which the table itself names
    "refused - bad username or password", [on_connect] reports the refusal,
    subscribes, and sets [connected] to [True]. *)
Theorem on_connect_refused_sets_connected (self : mqtt_client_wrap) :
  connected
    (match on_connect self 4 with Ok (self', _) => self' | Raise _ => self end) = true /\
  on_connect self 4 =
    Ok (set_connected true self,
        [ Print "Connected to target IoT Hub MQTT broker with result: refused - bad username or password";
          Subscribe (topic_receive self);
          Print "Subscribed to device bound message queue" ]).
Proof. split; reflexivity. Qed.

(** C9. For every result code outside 0..5 the lookup of the reason fails:
    [on_connect] raises [KeyError] and reports nothing.  For a result code
    inside 0..5 the line it prints ends with exactly the table entry. *)
Theorem on_connect_reason_lookup (self : mqtt_client_wrap) (rc : Z) :
  (~ 0 <= rc <= 5 -> on_connect self rc = Raise (KeyError rc)) /\
  (0 <= rc <= 5 ->
   exists reason,
     connection_result !! rc = Some reason /\
     on_connect self rc =
       Ok (set_connected true self,
           [ Print ("Connected to target IoT Hub MQTT broker with result: " +:+ reason);
             Subscribe (topic_receive self);
             Print "Subscribed to device bound message queue" ])).
Proof.
  split.
  - intros Hout. apply on_connect_unknown.
    destruct (connection_result !! rc) as [reason|] eqn:Hrc; [|reflexivity].
    exfalso. apply Hout, connection_result_dom. eauto.
  - intros Hin. apply connection_result_dom in Hin as [reason Hrc].
    exists reason. split; [assumption|]. now apply on_connect_known.
Qed.

Lemma on_connect_reason_lookup_witness :
  on_connect (init "hub" "dev") 7 = Raise (KeyError 7) /\
  exists reason,
    connection_result !! 5 = Some reason /\
    on_connect (init "hub" "dev") 5 =
      Ok (set_connected true (init "hub" "dev"),
          [ Print ("Connected to target IoT Hub MQTT broker with result: " +:+ reason);
            Subscribe "devices/dev/messages/devicebound/#";
            Print "Subscribed to device bound message queue" ]).
Proof.
  split.
  - apply (proj1 (on_connect_reason_lookup (init "hub" "dev") 7)). lia.
  - apply (proj2 (on_connect_reason_lookup (init "hub" "dev") 5)). lia.
Defined.

(** The table, entry by entry. *)
Example connection_result_entries :
  List.map (fun rc => connection_result !! rc) [0; 1; 2; 3; 4; 5; 6; -1] =
  [ Some "success";
    Some "refused - incorrect protocol version";
    Some "refused - invalid client id";
    Some "refused - server unavailable";
    Some "refused - bad username or password";
    Some "refused - not authorized";
    None; None ].
Proof. reflexivity. Qed.

(** ** One iteration of the loop *)

Section Loop.

Context {Src : Type}.
Variable generate : Src -> result (string * Src).
Variable w : world.
Variables publish_delay msg_count : Z.


(** Case analysis following the branches of [loop_body]. *)
Ltac body_cases st :=
  unfold loop_body, sleep_then, sleep, is_connected;
  let Hio := fresh "Hio" in
  pose proof (io_thread_inv w (tick st) (self st)) as Hio;
  destruct (io_thread w (tick st) (self st)) as [self1 io_evs] eqn:Eio;
  destruct Hio as [Htp Htr Hlr Hmono Hev]; cbn [fst snd] in *;
  destruct (connected self1) eqn:Econn;
  [ destruct (msgs st <? msg_count) eqn:Elt;
    [ destruct (generate (data st)) as [[payload data']|e] eqn:Egen;
      [ destruct (publish_fault w (tick st)) as [e|] eqn:Efault;
        [ | destruct (publish_delay <? 0) eqn:Eneg ]
      | ]
    | ]
  | destruct (publish_delay <? 0) eqn:Eneg ];
  cbn [fst snd state_of self data msgs tick with_self].

(** *** Publishing is gated by the flag *)


Lemma gated_no_publish tr : publishes tr = [] -> gated tr.
Proof.
  intros Hnone pre post topic payload ->.
  rewrite publishes_app in Hnone. cbn in Hnone.
  now apply app_eq_nil in Hnone as [_ ?].
Qed.

Lemma gated_app tr1 tr2 : gated tr1 -> gated tr2 -> gated (tr1 ++ tr2).
Proof.
  intros H1 H2 pre post topic payload Heq.
  apply app_eq_inv in Heq as [(k & -> & Hk) | (k & -> & ->)].
  - destruct k as [|e k]; cbn in Hk.
    + symmetry in Hk. destruct (H2 [] post topic payload Hk) as [pre' Hpre'].
      now destruct pre'.
    + injection Hk as <- ->. eapply H1. reflexivity.
  - destruct (H2 k post topic payload eq_refl) as [pre' ->].
    exists (tr1 ++ pre'). now rewrite app_assoc.
Qed.

Lemma gated_read_publish topic payload :
  gated [ReadConnected true; Publish topic payload].
Proof.
  intros pre post t p Heq.
  destruct pre as [|e0 [|e1 pre]]; cbn in Heq.
  - discriminate.
  - injection Heq as <- _. now exists [].
  - injection Heq as _ _ Heq. now destruct pre.
Qed.

Lemma body_gated st : gated (loop_body generate w publish_delay msg_count st).2.
Proof.
  body_cases st;
    try (apply gated_no_publish;
         rewrite !publishes_app, (io_no_publish _ Hev); reflexivity).
  - rewrite <- app_assoc. apply gated_app; [now apply gated_no_publish, io_no_publish|].
    apply gated_read_publish.
  - rewrite <- app_assoc. apply gated_app; [now apply gated_no_publish, io_no_publish|].
    apply gated_read_publish.
  - rewrite <- !app_assoc. apply gated_app; [now apply gated_no_publish, io_no_publish|].
    apply (gated_app [_; _] [_]); [apply gated_read_publish|now apply gated_no_publish].
Qed.

Lemma loop_gated fuel st :
  gated (trace (loop generate w fuel publish_delay msg_count st)).
Proof.
  revert st. induction fuel as [|fuel IH]; intros st; cbn [loop].
  - now apply gated_no_publish.
  - pose proof (body_gated st) as Hb.
    destruct (loop_body generate w publish_delay msg_count st) as [[st'|st'|e st'] evs];
      cbn [snd] in Hb; cbn [trace prepend]; try assumption.
    apply gated_app; [assumption|apply IH].
Qed.

(** *** The counter *)

Lemma body_msgs st :
  let r := loop_body generate w publish_delay msg_count st in
  msgs st <= msgs (state_of r.1) <= Z.max (msgs st) msg_count /\
  Z.of_nat (length (publishes r.2)) <= msgs (state_of r.1) - msgs st.
Proof.
  cbv zeta. body_cases st;
    rewrite !publishes_app, (io_no_publish _ Hev); cbn [publishes List.filter is_publish app length];
    try apply Z.ltb_lt in Elt; lia.
Qed.

Lemma loop_msgs fuel st :
  let r := loop generate w fuel publish_delay msg_count st in
  msgs st <= msgs (final r) <= Z.max (msgs st) msg_count /\
  Z.of_nat (length (publishes (trace r))) <= msgs (final r) - msgs st.
Proof.
  cbv zeta. revert st. induction fuel as [|fuel IH]; intros st; cbn [loop].
  - cbn. lia.
  - pose proof (body_msgs st) as Hb. cbv zeta in Hb.
    destruct (loop_body generate w publish_delay msg_count st) as [[st'|st'|e st'] evs];
      cbn [fst snd state_of] in Hb; cbn [trace final prepend]; try assumption.
    specialize (IH st'). rewrite publishes_app, length_app. lia.
Qed.

(** *** Pacing *)

Lemma body_sleeps st :
  match loop_body generate w publish_delay msg_count st with
  | (Continue st', evs) =>
      tick st' = S (tick st) /\
      exists pre, evs = pre ++ [Sleep publish_delay] /\ sleeps pre = []
  | (s, evs) => tick (state_of s) = tick st /\ sleeps evs = []
  end.
Proof.
  body_cases st; (split; [reflexivity|]);
    try (rewrite !sleeps_app, (io_no_sleep _ Hev); reflexivity);
    eexists; (split; [reflexivity|]);
    rewrite !sleeps_app, (io_no_sleep _ Hev); reflexivity.
Qed.

Lemma loop_sleeps fuel st :
  let r := loop generate w fuel publish_delay msg_count st in
  sleeps (trace r) = repeat (Sleep publish_delay) (tick (final r) - tick st) /\
  (tick st <= tick (final r))%nat /\
  (outcome_of r = Running -> tick (final r) = (tick st + fuel)%nat).
Proof.
  cbv zeta. revert st. induction fuel as [|fuel IH]; intros st; cbn [loop].
  - cbn. rewrite Nat.sub_diag. repeat split; lia.
  - pose proof (body_sleeps st) as Hb.
    destruct (loop_body generate w publish_delay msg_count st) as [[st'|st'|e st'] evs];
      cbn [state_of] in Hb; cbn [trace final prepend outcome_of].
    + destruct Hb as (Htick & pre & -> & Hpre).
      destruct (IH st') as (Hs & Hle & Hto).
      rewrite !sleeps_app, Hpre, Hs. cbn [sleeps List.filter is_sleep app].
      replace (tick (final (loop generate w fuel publish_delay msg_count st')) - tick st)%nat
        with (S (tick (final (loop generate w fuel publish_delay msg_count st')) - tick st'))%nat
        by lia.
      split; [reflexivity|split; [lia|intros Ho; rewrite (Hto Ho); lia]].
    + destruct Hb as [-> ->]. rewrite Nat.sub_diag. now repeat split.
    + destruct Hb as [-> ->]. rewrite Nat.sub_diag. now repeat split.
Qed.

(** *** What the loop leaves behind *)

Lemma body_no_loop_stop st :
  List.filter is_loop_stop (loop_body generate w publish_delay msg_count st).2 = [].
Proof.
  body_cases st; rewrite !List.filter_app, (io_no_loop_stop _ Hev); reflexivity.
Qed.

Lemma loop_no_loop_stop fuel st :
  List.filter is_loop_stop (trace (loop generate w fuel publish_delay msg_count st)) = [].
Proof.
  revert st. induction fuel as [|fuel IH]; intros st; cbn [loop]; [reflexivity|].
  pose proof (body_no_loop_stop st) as Hb.
  destruct (loop_body generate w publish_delay msg_count st) as [[st'|st'|e st'] evs];
    cbn [snd] in Hb; cbn [trace prepend]; try assumption.
  now rewrite List.filter_app, Hb, IH.
Qed.

Lemma body_flag st :
  let r := loop_body generate w publish_delay msg_count st in
  (connected (self st) = true -> connected (self (state_of r.1)) = true) /\
  (forall st', r.1 = Break st' -> connected (self st') = true) /\
  topic_publish (self (state_of r.1)) = topic_publish (self st).
Proof.
  cbv zeta. body_cases st; repeat split; try assumption; try discriminate;
    try (intros _; assumption); try (intros _; reflexivity);
    try (intros Hc; specialize (Hmono Hc); congruence).
  intros st' [= <-]. assumption.
Qed.

Lemma loop_flag fuel st :
  let r := loop generate w fuel publish_delay msg_count st in
  (connected (self st) = true -> connected (self (final r)) = true) /\
  (outcome_of r = Returned -> connected (self (final r)) = true) /\
  topic_publish (self (final r)) = topic_publish (self st).
Proof.
  cbv zeta. revert st. induction fuel as [|fuel IH]; intros st; cbn [loop].
  - cbn. repeat split; [auto|discriminate].
  - pose proof (body_flag st) as Hb. cbv zeta in Hb.
    destruct (loop_body generate w publish_delay msg_count st) as [[st'|st'|e st'] evs];
      cbn [fst state_of] in Hb; cbn [final prepend outcome_of];
      destruct Hb as (Hmono & Hbrk & Htopic).
    + destruct (IH st') as (IH1 & IH2 & IH3). repeat split; [auto|auto|congruence].
    + repeat split; [auto| |auto]. intros _. now apply Hbrk.
    + repeat split; [auto|discriminate|auto].
Qed.

End Loop.

(** ** Termination of the loop *)

Section Termination.

Context {Src : Type}.
Variable generate : Src -> result (string * Src).
Variable w : world.
Variables publish_delay msg_count : Z.

Lemma prepend_nil (r : run (Src := Src)) : prepend [] r = r.
Proof. now destruct r. Qed.

Lemma prepend_prepend evs1 evs2 (r : run (Src := Src)) :
  prepend evs1 (prepend evs2 r) = prepend (evs1 ++ evs2) r.
Proof. unfold prepend; cbn. now rewrite app_assoc. Qed.

Lemma loop_S fuel st :
  loop generate w (S fuel) publish_delay msg_count st =
  match loop_body generate w publish_delay msg_count st with
  | (Continue st', evs) => prepend evs (loop generate w fuel publish_delay msg_count st')
  | (Break st', evs) => {| outcome_of := Returned; final := st'; trace := evs |}
  | (Throw e st', evs) => {| outcome_of := Raised e; final := st'; trace := evs |}
  end.
Proof. reflexivity. Qed.

(** More fuel does not change a finished run. *)
Lemma loop_fuel_mono fuel extra st :
  finished (outcome_of (loop generate w fuel publish_delay msg_count st)) = true ->
  loop generate w (fuel + extra) publish_delay msg_count st =
  loop generate w fuel publish_delay msg_count st.
Proof.
  revert st. induction fuel as [|fuel IH]; intros st; cbn [loop Nat.add].
  - discriminate.
  - destruct (loop_body generate w publish_delay msg_count st) as [[st'|st'|e st'] evs];
      cbn [prepend outcome_of]; try reflexivity.
    intros Hfin. now rewrite IH.
Qed.

(** While the flag is down the loop only sleeps. *)
Lemma loop_waits k st :
  0 <= publish_delay ->
  connected (io_from w (tick st) k (self st)) = true ->
  exists j st' evs,
    (j <= k)%nat /\
    connected (io_thread w (tick st') (self st')).1 = true /\
    data st' = data st /\ msgs st' = msgs st /\
    topic_publish (self st') = topic_publish (self st) /\
    publishes evs = [] /\
    forall fuel,
      loop generate w (j + fuel) publish_delay msg_count st =
      prepend evs (loop generate w fuel publish_delay msg_count st').
Proof.
  intros Hdelay. revert st. induction k as [|k IH]; intros st Hconn;
    destruct (connected (io_thread w (tick st) (self st)).1) eqn:Enow;
    try (exists 0%nat, st, []; repeat split; auto; try lia; intros fuel;
         now rewrite prepend_nil).
  cbn [io_from] in Hconn.
  {
    pose proof (io_thread_inv w (tick st) (self st)) as [Htp _ _ _ Hev].
    set (st1 := {| self := (io_thread w (tick st) (self st)).1; data := data st;
                   msgs := msgs st; tick := S (tick st) |}).
    destruct (IH st1 Hconn) as (j & st' & evs & Hj & Hc' & Hd' & Hm' & Ht' & Hp' & Hloop).
    exists (S j), st', (((io_thread w (tick st) (self st)).2 ++ [ReadConnected false])
                          ++ [Sleep publish_delay] ++ evs).
    repeat split; auto.
    + lia.
    + cbn [self st1] in Ht'. congruence.
    + rewrite !publishes_app, (io_no_publish _ Hev), Hp'. reflexivity.
    + intros fuel. cbn [loop Nat.add].
      unfold loop_body, sleep_then, sleep, is_connected.
      destruct (io_thread w (tick st) (self st)) as [self1 io_evs] eqn:Eio.
      cbn [fst snd] in *. rewrite Enow.
      replace (publish_delay <? 0) with false by (symmetry; apply Z.ltb_ge; lia).
      cbn [with_self self data msgs tick]. fold st1.
      rewrite Hloop, prepend_prepend. f_equal. now rewrite <- !app_assoc.
  }
Qed.

(** As long as the flag stays down the loop neither publishes nor ends. *)
Lemma loop_never fuel st :
  0 <= publish_delay ->
  (forall k, connected (io_from w (tick st) k (self st)) = false) ->
  let r := loop generate w fuel publish_delay msg_count st in
  outcome_of r = Running /\ publishes (trace r) = [].
Proof.
  intros Hdelay. cbv zeta. revert st.
  induction fuel as [|fuel IH]; intros st Hdown; [now split|].
  rewrite loop_S. unfold loop_body, sleep_then, sleep, is_connected.
  pose proof (Hdown 0%nat) as Hnow. cbn [io_from] in Hnow.
  pose proof (io_thread_inv w (tick st) (self st)) as [_ _ _ _ Hev].
  assert (forall k, connected (io_from w (S (tick st)) k
                                 (io_thread w (tick st) (self st)).1) = false)
    as Hnext by (intros k; apply (Hdown (S k))).
  destruct (io_thread w (tick st) (self st)) as [self1 io_evs] eqn:Eio.
  cbn [fst snd] in *. rewrite Hnow.
  replace (publish_delay <? 0) with false by (symmetry; apply Z.ltb_ge; lia).
  cbn [with_self self data msgs tick prepend outcome_of trace].
  destruct (IH {| self := self1; data := data st; msgs := msgs st;
                  tick := S (tick st) |} Hnext) as [Ho Hp].
  split; [exact Ho|].
  rewrite !publishes_app, (io_no_publish _ Hev), Hp. reflexivity.
Qed.

(** A world in which the broker never answers keeps the loop spinning. *)
Lemma loop_silent fuel st :
  0 <= publish_delay -> connected (self st) = false ->
  outcome_of (loop generate silent fuel publish_delay msg_count st) = Running.
Proof.
  intros Hdelay. revert st. induction fuel as [|fuel IH]; intros st Hconn; cbn [loop].
  - reflexivity.
  - unfold loop_body, sleep_then, sleep, is_connected, io_thread.
    cbn [silent handshakes fold_left fst snd]. rewrite Hconn.
    replace (publish_delay <? 0) with false by (symmetry; apply Z.ltb_ge; lia).
    cbn [prepend outcome_of]. now apply IH.
Qed.

End Termination.

(** Once the flag is up, a list source is drained in order until the
    counter reaches [msg_count] or the list is empty. *)
Lemma loop_drains (w : world) (publish_delay msg_count : Z) (n : nat)
    (st : loop_state (Src := list string)) :
  0 <= publish_delay -> fault_free w ->
  connected (io_thread w (tick st) (self st)).1 = true ->
  n = Z.to_nat (msg_count - msgs st) ->
  let r := loop list_generate w (S n) publish_delay msg_count st in
  publishes (trace r) =
    List.map (Publish (topic_publish (self st))) (firstn n (data st)) /\
  outcome_of r = (if (n <=? length (data st))%nat then Returned
                  else Raised (External "StopIteration")).
Proof.
  intros Hdelay Hfree. cbv zeta. revert st.
  induction n as [|n IH]; intros st Hconn Hn.
  - cbn [loop]. unfold loop_body, is_connected.
    pose proof (io_thread_inv w (tick st) (self st)) as [_ _ _ _ Hev].
    destruct (io_thread w (tick st) (self st)) as [self1 io_evs] eqn:Eio.
    cbn [fst snd] in *. rewrite Hconn.
    replace (msgs st <? msg_count) with false by (symmetry; apply Z.ltb_ge; lia).
    cbn [trace outcome_of firstn List.map Nat.leb].
    now rewrite publishes_app, (io_no_publish _ Hev).
  - rewrite loop_S. unfold loop_body, sleep_then, sleep, is_connected.
    pose proof (io_thread_inv w (tick st) (self st)) as [Htp _ _ _ Hev].
    destruct (io_thread w (tick st) (self st)) as [self1 io_evs] eqn:Eio.
    cbn [fst snd] in *. rewrite Hconn.
    replace (msgs st <? msg_count) with true by (symmetry; apply Z.ltb_lt; lia).
    destruct (data st) as [|payload rest] eqn:Edata; cbn [list_generate].
    + cbn [trace outcome_of firstn List.map length Nat.leb].
      now rewrite publishes_app, (io_no_publish _ Hev).
    + rewrite Hfree.
      replace (publish_delay <? 0) with false by (symmetry; apply Z.ltb_ge; lia).
      cbn [self data msgs tick].
      set (st' := {| self := self1; data := rest; msgs := msgs st + 1;
                     tick := S (tick st) |}).
      destruct (IH st') as [Hpub Hout].
      * cbn [self tick st'].
        pose proof (io_thread_inv w (S (tick st)) self1) as [_ _ _ Hmono _]. auto.
      * cbn [msgs st']. lia.
      * cbn [prepend trace outcome_of]. rewrite Hout. cbn [length Nat.leb].
        split; [|reflexivity].
        rewrite !publishes_app, (io_no_publish _ Hev), Hpub.
        cbn [self data st' firstn List.map publishes List.filter is_publish app].
        now rewrite Htp.
Qed.

(** The flag does not depend on the state of the network thread. *)
Lemma io_deliver_loop_running b acc rc :
  io_deliver (set_loop_running b acc.1, acc.2) rc =
  (set_loop_running b (io_deliver acc rc).1, (io_deliver acc rc).2).
Proof.
  unfold io_deliver, on_connect. cbn [fst snd].
  now destruct (connection_result !! rc).
Qed.

Lemma io_thread_loop_running w n b self0 :
  io_thread w n (set_loop_running b self0) =
  (set_loop_running b (io_thread w n self0).1, (io_thread w n self0).2).
Proof.
  unfold io_thread.
  change (set_loop_running b self0, @nil event)
    with (set_loop_running b (self0, @nil event).1, (self0, @nil event).2).
  generalize (self0, @nil event) as acc.
  induction (handshakes w n) as [|rc rcs IH]; intros acc; cbn [fold_left].
  - reflexivity.
  - now rewrite io_deliver_loop_running, IH.
Qed.

Lemma io_from_loop_running w t k b self0 :
  io_from w t k (set_loop_running b self0) = set_loop_running b (io_from w t k self0).
Proof.
  revert t self0. induction k as [|k IH]; intros t self0; cbn [io_from];
    rewrite io_thread_loop_running; cbn [fst]; auto.
Qed.

(** ** [execute] as a whole *)

Section ExecuteFacts.

Context {Src : Type}.
Variable generate : Src -> result (string * Src).
Variable w : world.

Lemma execute_trace fuel self0 data0 publish_delay msg_count :
  let st0 := {| self := set_loop_running true self0; data := data0;
                msgs := 0; tick := 0 |} in
  let r := loop generate w fuel publish_delay msg_count st0 in
  trace (execute generate w fuel self0 data0 publish_delay msg_count) =
    LoopStart :: trace r ++ (if finished (outcome_of r) then [LoopStop] else []).
Proof.
  cbv zeta. unfold execute.
  destruct (outcome_of (loop _ _ _ _ _ _)); cbn; now rewrite ?app_nil_r.
Qed.

Lemma execute_final fuel self0 data0 publish_delay msg_count :
  let st0 := {| self := set_loop_running true self0; data := data0;
                msgs := 0; tick := 0 |} in
  let r := loop generate w fuel publish_delay msg_count st0 in
  let r' := execute generate w fuel self0 data0 publish_delay msg_count in
  outcome_of r' = outcome_of r /\
  msgs (final r') = msgs (final r) /\
  tick (final r') = tick (final r) /\
  connected (self (final r')) = connected (self (final r)) /\
  topic_publish (self (final r')) = topic_publish (self (final r)) /\
  (finished (outcome_of r) = true -> loop_running (self (final r')) = false).
Proof.
  cbv zeta. unfold execute.
  destruct (outcome_of (loop _ _ _ _ _ _)); cbn; repeat split; auto; discriminate.
Qed.

(** C4. During any execution of [execute], a publish attempt never occurs
    while the driver is not connected: every [client.publish] call in the
    trace comes directly after an [is_connected()] that returned [True], in
    the same iteration. *)
Theorem execute_publish_gated fuel self0 data0 publish_delay msg_count
    pre post topic payload :
  trace (execute generate w fuel self0 data0 publish_delay msg_count) =
    pre ++ Publish topic payload :: post ->
  exists pre', pre = pre' ++ [ReadConnected true].
Proof.
  revert pre post topic payload. fold (gated (trace (execute generate w fuel self0 data0 publish_delay msg_count))).
  rewrite execute_trace.
  apply (gated_app [LoopStart]); [now apply gated_no_publish|].
  apply gated_app; [apply loop_gated|].
  apply gated_no_publish. now destruct (finished _).
Qed.

(** C5 (amended). Throughout every execution of [execute] the counter
    [msgs] stays between 0 and max(msg_count, 0): it starts at 0 and is
    incremented only when strictly below [msg_count]; the number of publish
    calls issued is at most [msgs], hence at most max(msg_count, 0). *)
Theorem execute_msgs_bounded fuel self0 data0 publish_delay msg_count :
  let r := execute generate w fuel self0 data0 publish_delay msg_count in
  0 <= msgs (final r) <= Z.max 0 msg_count /\
  Z.of_nat (length (publishes (trace r))) <= msgs (final r).
Proof.
  cbv zeta.
  destruct (execute_final fuel self0 data0 publish_delay msg_count) as (_ & -> & _).
  rewrite execute_trace.
  pose proof (loop_msgs generate w publish_delay msg_count fuel
                {| self := set_loop_running true self0; data := data0;
                   msgs := 0; tick := 0 |}) as Hl.
  cbv zeta in Hl.
  change (msgs {| self := _; data := _; msgs := 0; tick := _ |}) with 0 in Hl.
  change (LoopStart :: ?t) with ([LoopStart] ++ t).
  rewrite !publishes_app, !length_app.
  replace (length (publishes (if finished _ then [LoopStop] else []))) with 0%nat
    by now destruct (finished _).
  cbn [publishes List.filter is_publish length]. lia.
Qed.

(** C6. On every exit path of [execute], whether it returns or raises, the
    last call made is [client.loop_stop()], it is made exactly once, and
    the network thread is no longer running. *)
Theorem execute_always_stops_loop fuel self0 data0 publish_delay msg_count :
  let r := execute generate w fuel self0 data0 publish_delay msg_count in
  finished (outcome_of r) = true ->
  last (trace r) = Some LoopStop /\
  List.filter is_loop_stop (trace r) = [LoopStop] /\
  loop_running (self (final r)) = false.
Proof.
  cbv zeta.
  destruct (execute_final fuel self0 data0 publish_delay msg_count)
    as (-> & _ & _ & _ & _ & Hstop).
  rewrite execute_trace. intros Hfin. rewrite Hfin.
  split; [|split].
  - change (LoopStart :: ?t ++ [LoopStop]) with ((LoopStart :: t) ++ [LoopStop]).
    apply last_snoc.
  - cbn [List.filter is_loop_stop]. now rewrite List.filter_app, loop_no_loop_stop.
  - auto.
Qed.

(** C7. Every iteration of the publish loop that does not leave the loop
    ends with exactly one [sleep(publish_delay)], whether or not it
    published: the trace of an execution holds one [Sleep publish_delay] per
    completed iteration and no other sleep, and an execution still inside
    the loop after [fuel] iterations has completed all [fuel] of them. *)
Theorem execute_paces_every_iteration fuel self0 data0 publish_delay msg_count :
  let r := execute generate w fuel self0 data0 publish_delay msg_count in
  sleeps (trace r) = repeat (Sleep publish_delay) (tick (final r)) /\
  (outcome_of r = Running -> tick (final r) = fuel) /\
  (forall st st' evs,
     loop_body generate w publish_delay msg_count st = (Continue st', evs) ->
     tick st' = S (tick st) /\
     exists pre, evs = pre ++ [Sleep publish_delay] /\ sleeps pre = []).
Proof.
  cbv zeta.
  destruct (execute_final fuel self0 data0 publish_delay msg_count)
    as (-> & _ & -> & _).
  rewrite execute_trace.
  destruct (loop_sleeps generate w publish_delay msg_count fuel
              {| self := set_loop_running true self0; data := data0;
                 msgs := 0; tick := 0 |}) as (Hs & _ & Hto).
  change (tick {| self := _; data := _; msgs := _; tick := 0 |}) with 0%nat in Hs, Hto.
  rewrite Nat.sub_0_r in Hs.
  split; [|split].
  - change (LoopStart :: ?t) with ([LoopStart] ++ t).
    rewrite !sleeps_app, Hs.
    replace (sleeps (if finished _ then [LoopStop] else [])) with (@nil event)
      by now destruct (finished _).
    cbn. now rewrite app_nil_r.
  - exact Hto.
  - intros st st' evs Hbody. pose proof (body_sleeps generate w publish_delay msg_count st) as Hb.
    now rewrite Hbody in Hb.
Qed.

(** C3 (amended). After the cleanup path of [execute] has completed, the
    network thread is no longer running, but the flag [connected] is not
    reset: a driver that was connected stays so, and after a normal return
    [connected] is [True]. *)
Theorem execute_cleanup_state fuel self0 data0 publish_delay msg_count :
  let r := execute generate w fuel self0 data0 publish_delay msg_count in
  finished (outcome_of r) = true ->
  loop_running (self (final r)) = false /\
  (outcome_of r = Returned -> connected (self (final r)) = true) /\
  (connected self0 = true -> connected (self (final r)) = true).
Proof.
  cbv zeta.
  destruct (execute_final fuel self0 data0 publish_delay msg_count)
    as (-> & _ & _ & -> & _ & Hstop).
  destruct (loop_flag generate w publish_delay msg_count fuel
              {| self := set_loop_running true self0; data := data0;
                 msgs := 0; tick := 0 |}) as (Hmono & Hret & _).
  intros Hfin. repeat split; auto.
Qed.

End ExecuteFacts.

(** C2 (amended). For every [msg_count >= 0] and [publish_delay >= 0], when
    no publish call fails: if [is_connected()] turns [True] by iteration
    [k], [execute] on a list source issues exactly
    min(msg_count, number of items) publish calls, carrying the first items
    of the list in order, and then terminates after [loop_stop]: it returns
    when the list holds at least [msg_count] items and otherwise raises the
    source's exception (any fuel above [k + msg_count] shows it); if the
    flag never turns [True], [execute] publishes nothing and does not
    terminate. *)
Theorem execute_publishes_min (w : world) (self0 : mqtt_client_wrap)
    (items : list string) (publish_delay msg_count : Z) :
  0 <= msg_count -> 0 <= publish_delay -> fault_free w ->
  (forall k fuel : nat,
     connected (io_from w 0 k self0) = true ->
     (k + Z.to_nat msg_count < fuel)%nat ->
     let r := execute list_generate w fuel self0 items publish_delay msg_count in
     publishes (trace r) =
       List.map (Publish (topic_publish self0)) (firstn (Z.to_nat msg_count) items) /\
     Z.of_nat (length (publishes (trace r))) = Z.min msg_count (Z.of_nat (length items)) /\
     outcome_of r = (if msg_count <=? Z.of_nat (length items) then Returned
                     else Raised (External "StopIteration")) /\
     last (trace r) = Some LoopStop) /\
  ((forall k : nat, connected (io_from w 0 k self0) = false) ->
   forall fuel : nat,
     let r := execute list_generate w fuel self0 items publish_delay msg_count in
     outcome_of r = Running /\ publishes (trace r) = []).
Proof.
  intros Hcount Hdelay Hfree.
  set (st0 := {| self := set_loop_running true self0; data := items;
                 msgs := 0; tick := 0 |}).
  split.
  - intros k fuel Hconn Hfuel. cbv zeta.
    destruct (loop_waits list_generate w publish_delay msg_count k st0 Hdelay)
      as (j & st' & evs & Hj & Hc' & Hd' & Hm' & Ht' & Hp' & Hloop).
    { cbn [st0 self tick]. now rewrite io_from_loop_running. }
    cbn [st0 self data msgs] in Hd', Hm', Ht'.
    destruct (loop_drains w publish_delay msg_count (Z.to_nat msg_count) st'
                Hdelay Hfree Hc') as [Hpub Hout].
    { rewrite Hm'. f_equal. lia. }
    rewrite Hd', Ht' in Hpub. rewrite Hd' in Hout.
    cbn [set_loop_running topic_publish] in Hpub.
    assert (loop list_generate w fuel publish_delay msg_count st0 =
            prepend evs (loop list_generate w (S (Z.to_nat msg_count))
                           publish_delay msg_count st'))
      as Hrun.
    { replace fuel
        with (j + (S (Z.to_nat msg_count) + (fuel - j - S (Z.to_nat msg_count))))%nat
        by lia.
      rewrite Hloop, loop_fuel_mono; [reflexivity|].
      rewrite Hout. now destruct (_ <=? _)%nat. }
    assert (finished (outcome_of (loop list_generate w fuel publish_delay msg_count st0))
            = true) as Hfin.
    { rewrite Hrun. cbn [prepend outcome_of]. rewrite Hout. now destruct (_ <=? _)%nat. }
    destruct (execute_final list_generate w fuel self0 items publish_delay msg_count)
      as (Ho & _).
    fold st0 in Ho.
    assert (publishes (trace (execute list_generate w fuel self0 items
                                publish_delay msg_count)) =
            List.map (Publish (topic_publish self0)) (firstn (Z.to_nat msg_count) items))
      as Hpubs.
    { rewrite execute_trace. fold st0. rewrite Hfin, Hrun. cbn [prepend trace].
      change (LoopStart :: ?t) with ([LoopStart] ++ t).
      rewrite !publishes_app, Hp', Hpub. cbn. now rewrite app_nil_r. }
    split; [exact Hpubs|split; [|split]].
    + rewrite Hpubs, length_map, length_firstn. lia.
    + rewrite Ho, Hrun. cbn [prepend outcome_of]. rewrite Hout.
      destruct (Nat.leb_spec (Z.to_nat msg_count) (length items));
        destruct (Z.leb_spec msg_count (Z.of_nat (length items))); auto; lia.
    + rewrite execute_trace. fold st0. rewrite Hfin.
      change (LoopStart :: ?t ++ [LoopStop]) with ((LoopStart :: t) ++ [LoopStop]).
      apply last_snoc.
  - intros Hdown fuel. cbv zeta.
    destruct (loop_never list_generate w publish_delay msg_count fuel st0 Hdelay)
      as [Ho Hp].
    { intros k. cbn [st0 self tick]. rewrite io_from_loop_running. apply Hdown. }
    destruct (execute_final list_generate w fuel self0 items publish_delay msg_count)
      as (Ho' & _).
    fold st0 in Ho'. rewrite Ho', Ho. split; [reflexivity|].
    rewrite execute_trace. fold st0. rewrite Ho. cbn [finished].
    change (LoopStart :: ?t) with ([LoopStart] ++ t).
    now rewrite !publishes_app, Hp.
Qed.

(** ** Concrete runs *)

Lemma execute_publish_gated_witness :
  exists pre',
    [ LoopStart;
      Print "Connected to target IoT Hub MQTT broker with result: success";
      Subscribe "devices/dev/messages/devicebound/#";
      Print "Subscribed to device bound message queue";
      ReadConnected true ] = pre' ++ [ReadConnected true].
Proof.
  apply (execute_publish_gated list_generate (accepting 0) 3 (init "hub" "dev")
           ["a"; "b"] 0 2 _
           [ Sleep 0; ReadConnected true;
             Publish "devices/dev/messages/events/" "b"; Sleep 0;
             ReadConnected true; LoopStop ]
           "devices/dev/messages/events/" "a").
  reflexivity.
Defined.

(** The scenario of the specification: a broker that accepts at once, the
    stream [a, b], no delay, two messages. *)
Lemma execute_publishes_min_witness :
  let r := execute list_generate (accepting 0) 3 (init "hub" "dev") ["a"; "b"] 0 2 in
  publishes (trace r) =
    [ Publish "devices/dev/messages/events/" "a";
      Publish "devices/dev/messages/events/" "b" ] /\
  Z.of_nat (length (publishes (trace r))) = 2 /\
  outcome_of r = Returned /\
  last (trace r) = Some LoopStop.
Proof.
  apply (proj1 (execute_publishes_min (accepting 0) (init "hub" "dev") ["a"; "b"] 0 2
                  ltac:(lia) ltac:(lia) (fun n => eq_refl)) 0%nat 3%nat).
  - reflexivity.
  - cbn. lia.
Defined.

(** C2, as stated, fails: against a broker that never answers, the run of
    the scenario never leaves the loop, whatever the fuel. *)
Lemma execute_never_connected_spins :
  ~ exists fuel,
      finished (outcome_of (execute list_generate silent fuel (init "hub" "dev")
                              ["a"; "b"] 0 2)) = true.
Proof.
  intros [fuel Hfin].
  destruct (execute_final list_generate silent fuel (init "hub" "dev") ["a"; "b"] 0 2)
    as (Ho & _).
  rewrite Ho, loop_silent in Hfin; [discriminate|lia|reflexivity].
Qed.

(** C3, as stated, fails: after a run that returns, the flag is still up. *)
Lemma execute_leaves_connected_set :
  let r := execute list_generate (accepting 0) 3 (init "hub" "dev") ["a"; "b"] 0 2 in
  outcome_of r = Returned /\
  last (trace r) = Some LoopStop /\
  connected (self (final r)) <> false.
Proof. cbv zeta. repeat split. vm_compute. discriminate. Qed.

Lemma execute_cleanup_state_witness :
  let r := execute list_generate (accepting 0) 3 (init "hub" "dev") ["a"; "b"] 0 2 in
  loop_running (self (final r)) = false /\
  (outcome_of r = Returned -> connected (self (final r)) = true) /\
  (connected (init "hub" "dev") = true -> connected (self (final r)) = true).
Proof.
  apply (execute_cleanup_state list_generate (accepting 0) 3 (init "hub" "dev")
           ["a"; "b"] 0 2).
  reflexivity.
Defined.

(** C5, as stated, fails for a negative [msg_count]: the counter starts at 0,
    above it. *)
Lemma execute_msgs_above_negative_count :
  ~ msgs (final (execute list_generate (accepting 0) 3 (init "hub" "dev")
                   ["a"; "b"] 0 (-1))) <= -1.
Proof. vm_compute. intros H. now apply H. Qed.

(** A transport fault during the second publish. *)
Lemma execute_always_stops_loop_witness :
  let r := execute list_generate (faulty 1) 5 (init "hub" "dev") ["a"; "b"; "c"] 0 3 in
  outcome_of r = Raised (External "TransportError") /\
  last (trace r) = Some LoopStop /\
  List.filter is_loop_stop (trace r) = [LoopStop] /\
  loop_running (self (final r)) = false.
Proof.
  split; [reflexivity|].
  apply (execute_always_stops_loop list_generate (faulty 1) 5 (init "hub" "dev")
           ["a"; "b"; "c"] 0 3).
  reflexivity.
Defined.

(** Three iterations against a broker that never answers: three sleeps of
    two seconds, nothing published. *)
Lemma execute_paces_every_iteration_witness :
  let r := execute list_generate silent 3 (init "hub" "dev") ["a"; "b"] 2 2 in
  sleeps (trace r) = [Sleep 2; Sleep 2; Sleep 2] /\
  tick (final r) = 3%nat /\
  publishes (trace r) = [].
Proof.
  destruct (execute_paces_every_iteration list_generate silent 3 (init "hub" "dev")
              ["a"; "b"] 2 2) as (Hs & Ht & _).
  split; [|split].
  - rewrite Hs. rewrite (Ht eq_refl). reflexivity.
  - apply Ht. reflexivity.
  - reflexivity.
Defined.

(** The other exit paths: the stream runs dry, and a refused handshake after
    which the loop publishes all the same. *)
Example execute_stream_exhausted :
  let r := execute list_generate (accepting 1) 5 (init "hub" "dev") ["a"] 0 2 in
  outcome_of r = Raised (External "StopIteration") /\
  trace r =
    [ LoopStart; ReadConnected false; Sleep 0;
      Print "Connected to target IoT Hub MQTT broker with result: success";
      Subscribe "devices/dev/messages/devicebound/#";
      Print "Subscribed to device bound message queue";
      ReadConnected true; Publish "devices/dev/messages/events/" "a"; Sleep 0;
      ReadConnected true; LoopStop ].
Proof. split; reflexivity. Qed.

Example execute_after_refusal :
  trace (execute list_generate refusing 5 (init "hub" "dev") ["a"] 0 1) =
    [ LoopStart;
      Print "Connected to target IoT Hub MQTT broker with result: refused - bad username or password";
      Subscribe "devices/dev/messages/devicebound/#";
      Print "Subscribed to device bound message queue";
      ReadConnected true; Publish "devices/dev/messages/events/" "a"; Sleep 0;
      ReadConnected true; LoopStop ].
Proof. reflexivity. Qed.

End MqttFacts.

(** * Properties of the IoT Central event monitor *)

Module CentralFacts.
Import Central.

Lemma validate_supported (v : version_info) :
  supported v -> validate_min_python_version v 3 5 None true = Ok true.
Proof.
  intros [Hmaj | [Hmaj Hmin]]; unfold validate_min_python_version.
  - now replace (3 <? major v) with true by (symmetry; apply Z.ltb_lt; lia).
  - rewrite Hmaj. cbn.
    now replace (5 <=? minor v) with true by (symmetry; apply Z.leb_le; lia).
Qed.

Lemma validate_unsupported (v : version_info) :
  ~ supported v ->
  validate_min_python_version v 3 5 None true =
    Raise (SystemExit "Python version 3.5 or higher required for this functionality.").
Proof.
  intros Hno. unfold supported in Hno. unfold validate_min_python_version.
  replace (3 <? major v) with false by (symmetry; apply Z.ltb_ge; lia).
  destruct (3 =? major v) eqn:Emaj.
  - apply Z.eqb_eq in Emaj.
    now replace (5 <=? minor v) with false by (symmetry; apply Z.leb_gt; lia).
  - reflexivity.
Qed.

(** A negative timeout stops the handler before any call leaves it. *)
Lemma monitor_negative_timeout (e : env) (a : monitor_args) :
  timeout a < 0 ->
  (iot_central_monitor_events e a).2 = [] /\
  exists x, (iot_central_monitor_events e a).1 = Raise x /\
    (supported (python e) ->
     x = CLIError "Monitoring timeout must be 0 (inf) or greater.").
Proof.
  intros Hneg. unfold iot_central_monitor_events.
  destruct (decide (3 < major (python e) \/ (major (python e) = 3 /\ 5 <= minor (python e))))
    as [Hsup|Hsup]; fold (supported (python e)) in Hsup.
  - rewrite (validate_supported _ Hsup).
    replace (timeout a <? 0) with true by (symmetry; apply Z.ltb_lt; lia).
    cbn. eauto.
  - rewrite (validate_unsupported _ Hsup). cbn. split; [reflexivity|].
    eexists. split; [reflexivity|]. intros Hsup'. contradiction.
Qed.

(** What reaches the executor, whenever it is called at all. *)
Lemma monitor_executor_args (e : env) (a : monitor_args) (xa : executor_args) :
  xa ∈ executor_calls (iot_central_monitor_events e a).2 ->
  0 <= timeout a /\
  x_timeout xa = timeout a * 1000 /\
  x_enqueued_time xa =
    match enqueued_time a with
    | Some t => if t =? 0 then utcnow_ms e else t
    | None => utcnow_ms e
    end.
Proof.
  unfold iot_central_monitor_events.
  destruct (validate_min_python_version (python e) 3 5 None true);
    [|cbn; now intros ?%elem_of_nil].
  destruct (timeout a <? 0) eqn:Eneg; [cbn; now intros ?%elem_of_nil|].
  apply Z.ltb_ge in Eneg.
  destruct (ensure_uamqp_fault e); [cbn; now intros ?%elem_of_nil|].
  destruct (lookup_target e (app_id a)) as [target|]; [|cbn; now intros ?%elem_of_nil].
  assert (forall (r1 : exn -> result unit) (r2 : result unit) (cs : list call),
            (match executor_fault e with Some x => (r1 x, cs) | None => (r2, cs) end).2 = cs)
    as Hsnd by (intros; now destruct (executor_fault e)).
  rewrite (Hsnd (fun x => Raise x) (Ok tt)). cbn [executor_calls omap list_omap].
  intros ->%list_elem_of_singleton. cbn.
  repeat split; [assumption|].
  destruct (enqueued_time a) as [t|]; cbn; [|reflexivity].
  now destruct (t =? 0).
Qed.

(** With cooperative collaborators and a non-negative timeout the executor
    is called, once. *)
Lemma monitor_reaches_executor (e : env) (a : monitor_args) (target : string) :
  cooperative e a target -> 0 <= timeout a ->
  exists xa, executor_calls (iot_central_monitor_events e a).2 = [xa].
Proof.
  intros (Hsup & Huamqp & Htarget) Hto. unfold iot_central_monitor_events.
  rewrite (validate_supported _ Hsup).
  replace (timeout a <? 0) with false by (symmetry; apply Z.ltb_ge; lia).
  rewrite Huamqp, Htarget.
  destruct (executor_fault e); cbn; eauto.
Qed.

(** C8. [iot_central_monitor_events] with a negative timeout fails before
    any collaborator or service is called (with the [CLIError] of the
    handler when the interpreter is supported); otherwise the executor
    receives the timeout, given in seconds, as [timeout * 1000]
    milliseconds: 0 stays 0, which the executor reads as waiting forever,
    and a positive timeout becomes a bounded wait of that many
    milliseconds. *)
Theorem monitor_timeout_forwarding (e : env) (a : monitor_args) :
  (timeout a < 0 ->
   (iot_central_monitor_events e a).2 = [] /\
   exists x, (iot_central_monitor_events e a).1 = Raise x /\
     (supported (python e) ->
      x = CLIError "Monitoring timeout must be 0 (inf) or greater.")) /\
  (forall xa, xa ∈ executor_calls (iot_central_monitor_events e a).2 ->
   x_timeout xa = timeout a * 1000 /\
   (timeout a = 0 -> x_timeout xa = 0 /\ executor_wait (x_timeout xa) = WaitForever) /\
   (0 < timeout a -> executor_wait (x_timeout xa) = WaitAtMost (timeout a * 1000))) /\
  (forall target, cooperative e a target -> 0 <= timeout a ->
   exists xa, executor_calls (iot_central_monitor_events e a).2 = [xa]).
Proof.
  split; [apply monitor_negative_timeout|split].
  - intros xa Hxa. destruct (monitor_executor_args e a xa Hxa) as (Hto & Hms & _).
    split; [assumption|split].
    + intros Hzero. rewrite Hms, Hzero. now split.
    + intros Hpos. rewrite Hms. unfold executor_wait.
      now replace (timeout a * 1000 =? 0) with false by (symmetry; apply Z.eqb_neq; lia).
  - apply monitor_reaches_executor.
Qed.

Lemma monitor_timeout_forwarding_witness :
  (iot_central_monitor_events sample_env (set_timeout (-2) (default_args "app"))).2 = [] /\
  (forall xa,
     xa ∈ executor_calls
            (iot_central_monitor_events sample_env (set_timeout 0 (default_args "app"))).2 ->
     x_timeout xa = 0 /\ executor_wait (x_timeout xa) = WaitForever) /\
  (exists xa,
     executor_calls
       (iot_central_monitor_events sample_env (set_timeout 7 (default_args "app"))).2 = [xa] /\
     x_timeout xa = 7000).
Proof.
  split; [|split].
  - apply (proj1 (monitor_timeout_forwarding sample_env
                    (set_timeout (-2) (default_args "app")))).
    cbn. lia.
  - intros xa Hxa.
    apply (proj1 (proj2 (monitor_timeout_forwarding sample_env
                           (set_timeout 0 (default_args "app")))) xa Hxa).
    reflexivity.
  - destruct (proj2 (proj2 (monitor_timeout_forwarding sample_env
                              (set_timeout 7 (default_args "app")))) "sb://app")
      as [xa Hxa].
    + split; [right; cbn; lia|split; reflexivity].
    + cbn. lia.
    + exists xa. split; [exact Hxa|].
      apply (proj1 (proj2 (monitor_timeout_forwarding sample_env
                             (set_timeout 7 (default_args "app")))) xa).
      rewrite Hxa. apply list_elem_of_here.
Defined.

(** C10. The start time that reaches the executor is the caller's
    [enqueued_time] only when that is a non-zero number; [None] and [0] are
    both replaced by the current UTC time in milliseconds, so that a call
    asking for time 0 is the same call as one giving no start time. *)
Theorem monitor_start_time (e : env) (a : monitor_args) :
  (forall xa, xa ∈ executor_calls (iot_central_monitor_events e a).2 ->
   x_enqueued_time xa =
     match enqueued_time a with
     | Some t => if t =? 0 then utcnow_ms e else t
     | None => utcnow_ms e
     end) /\
  iot_central_monitor_events e (set_enqueued_time (Some 0) a) =
  iot_central_monitor_events e (set_enqueued_time None a) /\
  (forall target, cooperative e a target -> 0 <= timeout a ->
   exists xa, executor_calls (iot_central_monitor_events e a).2 = [xa]).
Proof.
  split; [|split].
  - intros xa Hxa. now destruct (monitor_executor_args e a xa Hxa) as (_ & _ & Het).
  - reflexivity.
  - apply monitor_reaches_executor.
Qed.

Lemma monitor_start_time_witness :
  (exists xa,
     executor_calls
       (iot_central_monitor_events sample_env
          (set_enqueued_time (Some 0) (default_args "app"))).2 = [xa] /\
     x_enqueued_time xa = 1700000000000) /\
  (exists xa,
     executor_calls
       (iot_central_monitor_events sample_env
          (set_enqueued_time (Some 1500) (default_args "app"))).2 = [xa] /\
     x_enqueued_time xa = 1500).
Proof.
  split.
  - destruct (proj2 (proj2 (monitor_start_time sample_env
                (set_enqueued_time (Some 0) (default_args "app")))) "sb://app")
      as [xa Hxa].
    + split; [right; cbn; lia|split; reflexivity].
    + cbn. lia.
    + exists xa. split; [exact Hxa|].
      apply (proj1 (monitor_start_time sample_env
                      (set_enqueued_time (Some 0) (default_args "app"))) xa).
      rewrite Hxa. apply list_elem_of_here.
  - destruct (proj2 (proj2 (monitor_start_time sample_env
                (set_enqueued_time (Some 1500) (default_args "app")))) "sb://app")
      as [xa Hxa].
    + split; [right; cbn; lia|split; reflexivity].
    + cbn. lia.
    + exists xa. split; [exact Hxa|].
      apply (proj1 (monitor_start_time sample_env
                      (set_enqueued_time (Some 1500) (default_args "app"))) xa).
      rewrite Hxa. apply list_elem_of_here.
Defined.

(** The call that leaves the handler in the sample environment. *)
Example monitor_default_call :
  iot_central_monitor_events sample_env (default_args "app") =
    (Ok tt,
     [ EnsureUamqp false; ImportEvents3; GetEventHubTarget "app";
       Executor {| x_consumer_group := "$Default";
                   x_enqueued_time := 1700000000000;
                   x_central_target := "sb://app";
                   x_properties := [];
                   x_timeout := 300000;
                   x_device_id := None;
                   x_output := "json" |} ]).
Proof. reflexivity. Qed.

End CentralFacts.

(** * Strings *)

Module StringFacts.

Lemma append_cons (c : Ascii.ascii) (s1 s2 : string) :
  String c s1 +:+ s2 = String c (s1 +:+ s2).
Proof. reflexivity. Qed.

Lemma append_nil_l (s : string) : "" +:+ s = s.
Proof. reflexivity. Qed.

Lemma list_ascii_app (s1 s2 : string) :
  String.list_ascii_of_string (s1 +:+ s2) =
  String.list_ascii_of_string s1 ++ String.list_ascii_of_string s2.
Proof.
  induction s1 as [|c s1 IH]; [reflexivity|].
  rewrite append_cons. cbn. now rewrite IH.
Qed.

Lemma list_ascii_inj (s1 s2 : string) :
  String.list_ascii_of_string s1 = String.list_ascii_of_string s2 -> s1 = s2.
Proof.
  intros Heq. rewrite <- (String.string_of_list_ascii_of_string s1),
    <- (String.string_of_list_ascii_of_string s2). now rewrite Heq.
Qed.

Lemma append_inj_l (a x y : string) : a +:+ x = a +:+ y -> x = y.
Proof.
  induction a as [|c a IH]; [auto|].
  rewrite !append_cons. intros [= Heq]. auto.
Qed.

Lemma append_inj_r (x y b : string) : x +:+ b = y +:+ b -> x = y.
Proof.
  intros Heq. apply list_ascii_inj.
  apply (f_equal String.list_ascii_of_string) in Heq. rewrite !list_ascii_app in Heq.
  now apply app_inv_tail in Heq.
Qed.

Lemma append_assoc (a b c : string) : (a +:+ b) +:+ c = a +:+ (b +:+ c).
Proof.
  induction a as [|ch a IH]; [reflexivity|].
  rewrite !append_cons. now rewrite IH.
Qed.

Lemma append_nil_r (a : string) : a +:+ "" = a.
Proof.
  induction a as [|ch a IH]; [reflexivity|].
  rewrite append_cons. now rewrite IH.
Qed.

End StringFacts.

(** * Further properties of the telemetry driver *)

Module MqttExtra.
Import Mqtt MqttFacts.

(** ** Callbacks *)

(** What a sequence of handshake completions does to the flag, and which
    topics it subscribes to. *)
Lemma io_fold_flag (rcs : list Z) (acc : mqtt_client_wrap * list event) :
  connected (fold_left io_deliver rcs acc).1 = connected acc.1 || existsb known_code rcs.
Proof.
  revert acc. induction rcs as [|rc rcs IH]; intros acc; cbn [fold_left existsb].
  - now rewrite orb_false_r.
  - rewrite IH. unfold io_deliver, on_connect, known_code.
    destruct (connection_result !! rc) as [reason|] eqn:Hrc.
    + assert (0 <= rc <= 5) as Hin by (apply connection_result_dom; eauto).
      replace (0 <=? rc) with true by (symmetry; apply Z.leb_le; lia).
      replace (rc <=? 5) with true by (symmetry; apply Z.leb_le; lia).
      cbn. now rewrite orb_true_r.
    + assert (~ 0 <= rc <= 5) as Hout.
      { intros Hin. apply connection_result_dom in Hin as [? ?]. congruence. }
      replace ((0 <=? rc) && (rc <=? 5)) with false; [reflexivity|].
      symmetry. apply andb_false_iff.
      destruct (Z.leb_spec 0 rc); [|now left].
      destruct (Z.leb_spec rc 5); [lia|now right].
Qed.

Lemma io_fold_topics (pub recv : string) (rcs : list Z)
    (acc : mqtt_client_wrap * list event) :
  topic_receive acc.1 = recv -> Forall (on_topic pub recv) acc.2 ->
  Forall (on_topic pub recv) (fold_left io_deliver rcs acc).2.
Proof.
  revert acc. induction rcs as [|rc rcs IH]; intros acc Hrecv Hevs; cbn [fold_left].
  - assumption.
  - apply IH; unfold io_deliver, on_connect;
      destruct (connection_result !! rc); cbn [fst snd]; try assumption.
    apply Forall_app. split; [assumption|].
    repeat constructor. exact Hrecv.
Qed.

Lemma io_thread_topics (w : world) (n : nat) (self0 : mqtt_client_wrap) :
  Forall (on_topic (topic_publish self0) (topic_receive self0)) (io_thread w n self0).2.
Proof. apply io_fold_topics; [reflexivity|constructor]. Qed.

(** ** The loop, iteration by iteration *)

Section LoopExtra.

Context {Src : Type}.
Variable generate : Src -> result (string * Src).
Variable w : world.
Variables publish_delay msg_count : Z.

Ltac branches st :=
  unfold loop_body, sleep_then, sleep, is_connected;
  let Hio := fresh "Hio" in
  pose proof (io_thread_inv w (tick st) (self st)) as Hio;
  pose proof (io_thread_topics w (tick st) (self st)) as Htopics;
  destruct (io_thread w (tick st) (self st)) as [self1 io_evs] eqn:Eio;
  destruct Hio as [Htp Htr Hlr Hmono Hev]; cbn [fst snd] in *;
  destruct (connected self1) eqn:Econn;
  [ destruct (msgs st <? msg_count) eqn:Elt;
    [ destruct (generate (data st)) as [[payload data']|e] eqn:Egen;
      [ destruct (publish_fault w (tick st)) as [e|] eqn:Efault;
        [ | destruct (publish_delay <? 0) eqn:Eneg ]
      | ]
    | ]
  | destruct (publish_delay <? 0) eqn:Eneg ];
  cbn [fst snd state_of self data msgs tick with_self].

(** Topics and the thread flag are left alone. *)
Lemma body_topics st :
  let r := loop_body generate w publish_delay msg_count st in
  Forall (on_topic (topic_publish (self st)) (topic_receive (self st))) r.2 /\
  topic_publish (self (state_of r.1)) = topic_publish (self st) /\
  topic_receive (self (state_of r.1)) = topic_receive (self st) /\
  loop_running (self (state_of r.1)) = loop_running (self st).
Proof.
  cbv zeta. branches st; (split; [|now repeat split]);
    repeat (apply Forall_app; split); try assumption;
    repeat constructor; assumption.
Qed.

Lemma loop_topics fuel st :
  let r := loop generate w fuel publish_delay msg_count st in
  Forall (on_topic (topic_publish (self st)) (topic_receive (self st))) (trace r) /\
  topic_publish (self (final r)) = topic_publish (self st) /\
  topic_receive (self (final r)) = topic_receive (self st) /\
  loop_running (self (final r)) = loop_running (self st).
Proof.
  cbv zeta. revert st. induction fuel as [|fuel IH]; intros st; cbn [loop].
  - cbn. repeat split. constructor.
  - pose proof (body_topics st) as Hb. cbv zeta in Hb.
    destruct (loop_body generate w publish_delay msg_count st) as [[st'|st'|e st'] evs];
      cbn [fst snd state_of] in Hb; cbn [trace final prepend]; try assumption.
    destruct Hb as (Hevs & Hp & Hr & Hl).
    destruct (IH st') as (IHevs & IHp & IHr & IHl).
    rewrite Hp, Hr in IHevs.
    repeat split; try congruence. apply Forall_app. now split.
Qed.

(** The counter counts the publish calls. *)
Lemma body_count st :
  match loop_body generate w publish_delay msg_count st with
  | (Continue st', evs) =>
      Z.of_nat (length (publishes evs)) = msgs st' - msgs st
  | (Break st', evs) =>
      publishes evs = [] /\ msgs st' = msgs st /\ msg_count <= msgs st
  | (Throw _ _, _) => True
  end.
Proof.
  branches st; try exact I;
    rewrite !publishes_app, (io_no_publish _ Hev);
    cbn [publishes List.filter is_publish app length];
    try apply Z.ltb_ge in Elt; try lia.
  repeat split; [lia].
Qed.

Lemma loop_count fuel st :
  let r := loop generate w fuel publish_delay msg_count st in
  (forall e, outcome_of r <> Raised e) ->
  Z.of_nat (length (publishes (trace r))) = msgs (final r) - msgs st /\
  (outcome_of r = Returned -> msg_count <= msgs (final r)).
Proof.
  cbv zeta. revert st. induction fuel as [|fuel IH]; intros st; cbn [loop].
  - cbn. intros _. split; [lia|discriminate].
  - pose proof (body_count st) as Hb.
    destruct (loop_body generate w publish_delay msg_count st) as [[st'|st'|e st'] evs];
      cbn [trace final prepend outcome_of].
    + intros Hno. destruct (IH st' Hno) as [Hc Hr].
      split; [|exact Hr]. rewrite publishes_app, length_app. lia.
    + intros _. destruct Hb as (-> & -> & Hle). cbn. split; [lia|intros _; lia].
    + intros Hno. now destruct (Hno e).
Qed.

(** The loop never starts a thread. *)
Lemma body_no_loop_start st :
  List.filter is_loop_start (loop_body generate w publish_delay msg_count st).2 = [].
Proof.
  assert (forall evs, forallb is_io_event evs = true ->
                      List.filter is_loop_start evs = []) as Hio'.
  { intros evs. apply io_events_filter. now intros []. }
  branches st; rewrite !List.filter_app, (Hio' _ Hev); reflexivity.
Qed.

Lemma loop_no_loop_start fuel st :
  List.filter is_loop_start (trace (loop generate w fuel publish_delay msg_count st)) = [].
Proof.
  revert st. induction fuel as [|fuel IH]; intros st; cbn [loop]; [reflexivity|].
  pose proof (body_no_loop_start st) as Hb.
  destruct (loop_body generate w publish_delay msg_count st) as [[st'|st'|e st'] evs];
    cbn [snd] in Hb; cbn [trace prepend]; try assumption.
  now rewrite List.filter_app, Hb, IH.
Qed.

(** Pacing of the publish calls. *)
Lemma paced_no_publish secs tr1 tr2 :
  publishes tr1 = [] -> paced secs tr2 -> paced secs (tr1 ++ tr2).
Proof.
  induction tr1 as [|e tr1 IH]; cbn; [auto|].
  destruct (is_publish e) eqn:He; [discriminate|].
  intros Hnone Hp. apply paced_other; auto.
Qed.

Lemma paced_next secs tr :
  paced secs tr ->
  forall pre topic payload e post,
    tr = pre ++ Publish topic payload :: e :: post -> e = Sleep secs.
Proof.
  induction 1 as [|t0 p0|e0 tr He0 Hp IH|t0 p0 tr Hp IH];
    intros pre topic payload e post Heq.
  - now destruct pre.
  - destruct pre as [|a [|b pre]]; discriminate.
  - destruct pre as [|a pre]; cbn in Heq.
    + injection Heq as -> _. discriminate.
    + injection Heq as _ Heq. eapply IH, Heq.
  - destruct pre as [|a [|b pre]]; cbn in Heq.
    + now injection Heq as _ _ <- _.
    + injection Heq as _ Heq _. discriminate.
    + injection Heq as _ _ Heq. eapply IH, Heq.
Qed.

Lemma paced_snoc secs tr x :
  paced secs tr -> is_publish x = false ->
  forall pre topic payload e post,
    tr ++ [x] = pre ++ Publish topic payload :: e :: post ->
    e = Sleep secs \/ (e = x /\ post = []).
Proof.
  intros Hp Hx. induction Hp as [|t0 p0|e0 tr He0 Hp IH|t0 p0 tr Hp IH];
    intros pre topic payload e post Heq; cbn in Heq.
  - destruct pre as [|a [|b pre]]; discriminate.
  - destruct pre as [|a [|b pre]]; cbn in Heq.
    + injection Heq as _ _ <- <-. now right.
    + discriminate.
    + injection Heq as _ _ Heq. now destruct pre.
  - destruct pre as [|a pre]; cbn in Heq.
    + injection Heq as -> _. discriminate.
    + injection Heq as _ Heq. eapply IH, Heq.
  - destruct pre as [|a [|b pre]]; cbn in Heq.
    + injection Heq as _ _ <- _. now left.
    + injection Heq as _ Heq _. discriminate.
    + injection Heq as _ _ Heq. eapply IH, Heq.
Qed.

Lemma body_paced st :
  match loop_body generate w publish_delay msg_count st with
  | (Continue _, evs) => forall tr, paced publish_delay tr -> paced publish_delay (evs ++ tr)
  | (_, evs) => paced publish_delay evs
  end.
Proof.
  branches st;
    try (intros tr Hrest); rewrite <- ?app_assoc;
    apply paced_no_publish; try (now apply io_no_publish);
    cbn [app]; repeat (apply paced_other; [reflexivity|]);
    try (apply paced_publish); try (apply paced_last); try (apply paced_nil);
    assumption.
Qed.

Lemma loop_paced fuel st :
  paced publish_delay (trace (loop generate w fuel publish_delay msg_count st)).
Proof.
  revert st. induction fuel as [|fuel IH]; intros st; cbn [loop]; [constructor|].
  pose proof (body_paced st) as Hb.
  destruct (loop_body generate w publish_delay msg_count st) as [[st'|st'|e st'] evs];
    cbn [trace prepend]; auto.
Qed.

(** A negative delay ends the loop in its first iteration. *)
Lemma body_negative_delay st :
  publish_delay < 0 ->
  match loop_body generate w publish_delay msg_count st with
  | (Continue _, _) => False
  | (s, evs) =>
      (length (publishes evs) <= 1)%nat /\ sleeps evs = [] /\
      tick (state_of s) = tick st
  end.
Proof.
  intros Hneg. apply Z.ltb_lt in Hneg.
  branches st; try congruence;
    rewrite !publishes_app, !sleeps_app, (io_no_publish _ Hev), (io_no_sleep _ Hev);
    cbn; repeat split; lia.
Qed.

End LoopExtra.

(** A list source is consumed from the front, one item per publish call. *)
Lemma body_list_prefix (w : world) (publish_delay msg_count : Z)
    (st : loop_state (Src := list string)) :
  let r := loop_body list_generate w publish_delay msg_count st in
  exists n : nat,
    publishes r.2 = List.map (Publish (topic_publish (self st))) (firstn n (data st)) /\
    data (state_of r.1) = skipn n (data st) /\
    topic_publish (self (state_of r.1)) = topic_publish (self st).
Proof.
  cbv zeta. unfold loop_body, sleep_then, sleep, is_connected.
  pose proof (io_thread_inv w (tick st) (self st)) as [Htp _ _ _ Hev].
  destruct (io_thread w (tick st) (self st)) as [self1 io_evs] eqn:Eio.
  cbn [fst snd] in *.
  destruct (connected self1);
    [destruct (msgs st <? msg_count);
     [destruct (data st) as [|payload rest] eqn:Edata; cbn [list_generate];
      [|destruct (publish_fault w (tick st)); [|destruct (publish_delay <? 0)]]|]
    |destruct (publish_delay <? 0)];
    cbn [fst snd state_of self data with_self];
    rewrite !publishes_app, (io_no_publish _ Hev);
    cbn [publishes List.filter is_publish app];
    try (exists 0%nat; now repeat split);
    exists 1%nat; cbn; rewrite Htp; now repeat split.
Qed.

Lemma loop_list_prefix (w : world) (publish_delay msg_count : Z) (fuel : nat)
    (st : loop_state (Src := list string)) :
  let r := loop list_generate w fuel publish_delay msg_count st in
  exists n : nat,
    publishes (trace r) =
      List.map (Publish (topic_publish (self st))) (firstn n (data st)) /\
    data (final r) = skipn n (data st).
Proof.
  cbv zeta. revert st. induction fuel as [|fuel IH]; intros st; cbn [loop].
  - exists 0%nat. now split.
  - destruct (body_list_prefix w publish_delay msg_count st) as (n & Hp & Hd & Ht).
    destruct (loop_body list_generate w publish_delay msg_count st)
      as [[st'|st'|e st'] evs];
      cbn [fst snd state_of] in Hp, Hd, Ht; cbn [trace final prepend]; eauto.
    destruct (IH st') as (m & Hp' & Hd').
    exists (n + m)%nat. rewrite publishes_app, Hp, Hp', Ht, Hd', Hd.
    rewrite <- List.map_app. split.
    + f_equal. apply take_take_drop.
    + apply drop_drop.
Qed.

(** ** [execute] and the callbacks *)

Section ExecuteExtra.

Context {Src : Type}.
Variable generate : Src -> result (string * Src).
Variable w : world.

(** X1. Whatever the broker and the source do, [execute] publishes only to
    the driver's own [topic_publish], and the connect callbacks that run
    meanwhile subscribe only to its [topic_receive]. *)
Theorem execute_uses_own_topics fuel self0 data0 publish_delay msg_count :
  Forall (on_topic (topic_publish self0) (topic_receive self0))
    (trace (execute generate w fuel self0 data0 publish_delay msg_count)).
Proof.
  rewrite execute_trace.
  destruct (loop_topics generate w publish_delay msg_count fuel
              {| self := set_loop_running true self0; data := data0;
                 msgs := 0; tick := 0 |}) as (Hevs & _).
  constructor; [exact I|]. apply Forall_app. split; [exact Hevs|].
  destruct (finished _); repeat constructor.
Qed.

(** X3. As long as [execute] has not raised, the counter [msgs] equals the
    number of publish calls issued; when [execute] returns, that number is
    exactly max(msg_count, 0). *)
Theorem execute_counts_publishes fuel self0 data0 publish_delay msg_count :
  let r := execute generate w fuel self0 data0 publish_delay msg_count in
  (forall e, outcome_of r <> Raised e) ->
  Z.of_nat (length (publishes (trace r))) = msgs (final r) /\
  (outcome_of r = Returned ->
   Z.of_nat (length (publishes (trace r))) = Z.max 0 msg_count).
Proof.
  cbv zeta.
  destruct (execute_final generate w fuel self0 data0 publish_delay msg_count)
    as (-> & -> & _).
  rewrite execute_trace. intros Hno.
  set (st0 := {| self := set_loop_running true self0; data := data0;
                 msgs := 0; tick := 0 |}) in *.
  destruct (loop_count generate w publish_delay msg_count fuel st0 Hno) as [Hc Hr].
  destruct (loop_msgs generate w publish_delay msg_count fuel st0) as [Hm _].
  change (msgs st0) with 0 in Hc, Hm.
  assert (Z.of_nat (length (publishes
            (LoopStart :: trace (loop generate w fuel publish_delay msg_count st0) ++
             (if finished (outcome_of (loop generate w fuel publish_delay msg_count st0))
              then [LoopStop] else [])))) =
          msgs (final (loop generate w fuel publish_delay msg_count st0))) as Hlen.
  { change (LoopStart :: ?t) with ([LoopStart] ++ t).
    rewrite !publishes_app, !length_app.
    replace (length (publishes (if finished _ then [LoopStop] else []))) with 0%nat
      by now destruct (finished _).
    cbn [publishes List.filter is_publish length]. lia. }
  split; [exact Hlen|].
  intros Hret. rewrite Hlen. specialize (Hr Hret). lia.
Qed.

(** X4. With a negative [publish_delay] the loop does not survive its first
    iteration: [execute] ends at once, having slept never and published at
    most once. *)
Theorem execute_negative_delay fuel self0 data0 publish_delay msg_count :
  publish_delay < 0 -> (0 < fuel)%nat ->
  let r := execute generate w fuel self0 data0 publish_delay msg_count in
  finished (outcome_of r) = true /\
  (length (publishes (trace r)) <= 1)%nat /\
  sleeps (trace r) = [] /\
  tick (final r) = 0%nat.
Proof.
  intros Hneg Hfuel. cbv zeta.
  destruct (execute_final generate w fuel self0 data0 publish_delay msg_count)
    as (-> & _ & -> & _).
  rewrite execute_trace.
  set (st0 := {| self := set_loop_running true self0; data := data0;
                 msgs := 0; tick := 0 |}).
  destruct fuel as [|fuel]; [lia|]. rewrite loop_S.
  pose proof (body_negative_delay generate w publish_delay msg_count st0 Hneg) as Hb.
  destruct (loop_body generate w publish_delay msg_count st0) as [[st'|st'|e st'] evs];
    [contradiction| |]; cbn [state_of] in Hb; destruct Hb as (Hp & Hs & Ht);
    cbn [outcome_of trace final finished];
    change (LoopStart :: ?t) with ([LoopStart] ++ t);
    rewrite !publishes_app, !sleeps_app, !length_app, Hs; cbn; repeat split; auto; lia.
Qed.

(** X5. The call that follows a publish is always [sleep(publish_delay)],
    unless the publish or that sleep raised, in which case it is the
    [loop_stop()] of the cleanup: no two publish calls without a full sleep
    in between. *)
Theorem execute_sleeps_after_publish fuel self0 data0 publish_delay msg_count
    pre topic payload e post :
  trace (execute generate w fuel self0 data0 publish_delay msg_count) =
    pre ++ Publish topic payload :: e :: post ->
  e = Sleep publish_delay \/ (e = LoopStop /\ post = []).
Proof.
  rewrite execute_trace.
  pose proof (loop_paced generate w publish_delay msg_count fuel
                {| self := set_loop_running true self0; data := data0;
                   msgs := 0; tick := 0 |}) as Hp.
  apply (paced_other publish_delay LoopStart) in Hp; [|reflexivity].
  destruct (finished _).
  - change (LoopStart :: ?t ++ [LoopStop]) with ((LoopStart :: t) ++ [LoopStop]).
    now apply paced_snoc.
  - rewrite app_nil_r. intros Heq. left. eapply paced_next; eauto.
Qed.

(** X6. [execute] starts the network thread exactly once, as its first
    action; while it is still inside the loop the thread is running and
    [loop_stop()] has not been called. *)
Theorem execute_thread_lifecycle fuel self0 data0 publish_delay msg_count :
  let r := execute generate w fuel self0 data0 publish_delay msg_count in
  head (trace r) = Some LoopStart /\
  List.filter is_loop_start (trace r) = [LoopStart] /\
  (outcome_of r = Running ->
   List.filter is_loop_stop (trace r) = [] /\ loop_running (self (final r)) = true).
Proof.
  cbv zeta. rewrite execute_trace.
  set (st0 := {| self := set_loop_running true self0; data := data0;
                 msgs := 0; tick := 0 |}).
  split; [reflexivity|split].
  - cbn [List.filter is_loop_start].
    rewrite List.filter_app, loop_no_loop_start.
    now destruct (finished _).
  - unfold execute. fold st0.
    destruct (loop_topics generate w publish_delay msg_count fuel st0) as (_ & _ & _ & Hl).
    destruct (outcome_of (loop generate w fuel publish_delay msg_count st0)) eqn:Ho;
      try discriminate.
    intros _. cbn [final finished]. split; [|exact Hl].
    cbn [List.filter is_loop_stop]. now rewrite List.filter_app, loop_no_loop_stop.
Qed.

End ExecuteExtra.

(** X2. On a list source, in every world and at every point of the run, the
    payloads published so far are the first items of the list, in order and
    without gaps or repetitions, and the source holds exactly the items
    after them. *)
Theorem execute_publishes_prefix (w : world) (fuel : nat) (self0 : mqtt_client_wrap)
    (items : list string) (publish_delay msg_count : Z) :
  let r := execute list_generate w fuel self0 items publish_delay msg_count in
  let n := length (publishes (trace r)) in
  publishes (trace r) = List.map (Publish (topic_publish self0)) (firstn n items) /\
  data (final r) = skipn n items.
Proof.
  cbv zeta.
  set (st0 := {| self := set_loop_running true self0; data := items;
                 msgs := 0; tick := 0 |}).
  destruct (loop_list_prefix w publish_delay msg_count fuel st0) as (n & Hp & Hd).
  cbn [st0 self data set_loop_running topic_publish] in Hp, Hd.
  assert (publishes (trace (execute list_generate w fuel self0 items
                              publish_delay msg_count)) =
          List.map (Publish (topic_publish self0)) (firstn n items)) as Hpub.
  { rewrite execute_trace. fold st0.
    change (LoopStart :: ?t) with ([LoopStart] ++ t).
    rewrite !publishes_app, Hp.
    replace (publishes (if finished _ then [LoopStop] else [])) with (@nil event)
      by now destruct (finished _).
    cbn. now rewrite app_nil_r. }
  assert (data (final (execute list_generate w fuel self0 items
                         publish_delay msg_count)) = skipn n items) as Hdat.
  { unfold execute. fold st0.
    now destruct (outcome_of (loop list_generate w fuel publish_delay msg_count st0)). }
  assert (length (publishes (trace (execute list_generate w fuel self0 items
                                      publish_delay msg_count))) =
          Nat.min n (length items)) as Hlen.
  { now rewrite Hpub, length_map, length_firstn. }
  rewrite Hlen, Hdat, Hpub.
  destruct (Nat.le_ge_cases n (length items)) as [Hle|Hge].
  - now rewrite Nat.min_l.
  - rewrite Nat.min_r by assumption.
    rewrite !firstn_all2 by lia. rewrite !skipn_all2 by lia. now split.
Qed.

(** X7. After any batch of handshake completions the flag is up exactly
    when it was up before or at least one completion carried a result code
    of the table (0..5): callbacks raise the flag and never lower it. *)
Theorem handshakes_raise_flag (w : world) (n : nat) (self0 : mqtt_client_wrap) :
  connected (io_thread w n self0).1 =
  connected self0 || existsb known_code (handshakes w n).
Proof. unfold io_thread. now rewrite io_fold_flag. Qed.

(** X8. The topics of a driver determine its device id: two drivers publish
    to, or listen on, the same topic only if they were created for the same
    device. *)
Theorem init_topics_injective (entity1 entity2 dev1 dev2 : string) :
  (topic_publish (init entity1 dev1) = topic_publish (init entity2 dev2) -> dev1 = dev2) /\
  (topic_receive (init entity1 dev1) = topic_receive (init entity2 dev2) -> dev1 = dev2).
Proof.
  split; cbn [init topic_publish topic_receive]; intros Heq;
    apply StringFacts.append_inj_l in Heq;
    now apply StringFacts.append_inj_r in Heq.
Qed.

(** ** Concrete runs *)

Lemma execute_counts_publishes_witness :
  let r := execute list_generate (accepting 1) 6 (init "hub" "dev") ["a"; "b"; "c"] 0 2 in
  Z.of_nat (length (publishes (trace r))) = msgs (final r) /\
  (outcome_of r = Returned -> Z.of_nat (length (publishes (trace r))) = Z.max 0 2).
Proof.
  apply (execute_counts_publishes list_generate (accepting 1) 6 (init "hub" "dev")
           ["a"; "b"; "c"] 0 2).
  intros e. discriminate.
Defined.

Lemma execute_negative_delay_witness :
  let r := execute list_generate (accepting 0) 4 (init "hub" "dev") ["a"; "b"] (-1) 2 in
  finished (outcome_of r) = true /\
  (length (publishes (trace r)) <= 1)%nat /\
  sleeps (trace r) = [] /\
  tick (final r) = 0%nat.
Proof.
  apply (execute_negative_delay list_generate (accepting 0) 4 (init "hub" "dev")
           ["a"; "b"] (-1) 2); lia.
Defined.

Lemma execute_sleeps_after_publish_witness :
  Sleep 0 = Sleep 0 \/
  (Sleep 0 = LoopStop /\
   [ ReadConnected true; Publish "devices/dev/messages/events/" "b"; Sleep 0;
     ReadConnected true; LoopStop ] = []).
Proof.
  apply (execute_sleeps_after_publish list_generate (accepting 0) 3 (init "hub" "dev")
           ["a"; "b"] 0 2
           [ LoopStart;
             Print "Connected to target IoT Hub MQTT broker with result: success";
             Subscribe "devices/dev/messages/devicebound/#";
             Print "Subscribed to device bound message queue";
             ReadConnected true ]
           "devices/dev/messages/events/" "a").
  reflexivity.
Defined.

Lemma execute_thread_lifecycle_witness :
  let r := execute list_generate silent 2 (init "hub" "dev") ["a"] 1 1 in
  List.filter is_loop_stop (trace r) = [] /\ loop_running (self (final r)) = true.
Proof.
  apply (execute_thread_lifecycle list_generate silent 2 (init "hub" "dev") ["a"] 1 1).
  reflexivity.
Defined.

Lemma init_topics_injective_witness : "dev" = "dev".
Proof.
  apply (proj1 (init_topics_injective "hub-a" "hub-b" "dev" "dev")).
  reflexivity.
Defined.

End MqttExtra.

(** * Further properties of the event monitor *)

Module CentralExtra.
Import Central CentralFacts.


(** X9. On an interpreter older than Python 3.5 the monitor exits with the
    version message before it looks at its arguments or calls anything. *)
Theorem monitor_unsupported_python (e : env) (a : monitor_args) :
  ~ supported (python e) ->
  iot_central_monitor_events e a =
    (Raise (SystemExit "Python version 3.5 or higher required for this functionality."),
     []).
Proof.
  intros Hno. unfold iot_central_monitor_events.
  now rewrite (validate_unsupported _ Hno).
Qed.

(** X10. The calls that leave the monitor are always an initial segment of
    the sequence [ensure_uamqp], import of the events module, target
    lookup, executor: none is repeated, none is skipped, and the executor
    is never reached unless the three before it were made; when the monitor
    returns normally the whole sequence was made. *)
Theorem monitor_call_order (e : env) (a : monitor_args) :
  exists xa rest,
    [ EnsureUamqp (repair_uamqp a); ImportEvents3;
      GetEventHubTarget (app_id a); Executor xa ] =
    (iot_central_monitor_events e a).2 ++ rest /\
    ((iot_central_monitor_events e a).1 = Ok tt -> rest = []).
Proof.
  set (xa0 := {| x_consumer_group := ""; x_enqueued_time := 0; x_central_target := "";
                 x_properties := []; x_timeout := 0; x_device_id := None;
                 x_output := "" |}).
  unfold iot_central_monitor_events.
  destruct (validate_min_python_version (python e) 3 5 None true);
    [|exists xa0; eexists; split; [reflexivity|discriminate]].
  destruct (timeout a <? 0);
    [exists xa0; eexists; split; [reflexivity|discriminate]|].
  destruct (ensure_uamqp_fault e);
    [exists xa0; eexists; split; [reflexivity|discriminate]|].
  destruct (lookup_target e (app_id a)) as [target|];
    [|exists xa0; eexists; split; [reflexivity|discriminate]].
  destruct (executor_fault e); eexists; exists []; (split; [reflexivity|auto]).
Qed.


(** X12. What the executor receives besides the timeout and the start
    time: the consumer group and the device id as given, the target that
    the lookup returned for the app id, the requested property categories
    or the empty list, and an output format that is never empty: the one of
    the invocation, or json. *)
Theorem monitor_forwards_arguments (e : env) (a : monitor_args) (xa : executor_args) :
  xa ∈ executor_calls (iot_central_monitor_events e a).2 ->
  x_consumer_group xa = consumer_group a /\
  x_device_id xa = arg_device_id a /\
  lookup_target e (app_id a) = Ok (x_central_target xa) /\
  x_properties xa = default [] (properties a) /\
  x_output xa <> "" /\
  (invocation_output e = Some (x_output xa) \/
   (x_output xa = "json" /\
    (invocation_output e = None \/ invocation_output e = Some ""))).
Proof.
  unfold iot_central_monitor_events.
  destruct (validate_min_python_version (python e) 3 5 None true);
    [|cbn; now intros ?%elem_of_nil].
  destruct (timeout a <? 0); [cbn; now intros ?%elem_of_nil|].
  destruct (ensure_uamqp_fault e); [cbn; now intros ?%elem_of_nil|].
  destruct (lookup_target e (app_id a)) as [target|]; [|cbn; now intros ?%elem_of_nil].
  assert (forall (r1 : exn -> result unit) (r2 : result unit) (cs : list call),
            (match executor_fault e with Some x => (r1 x, cs) | None => (r2, cs) end).2 = cs)
    as Hsnd by (intros; now destruct (executor_fault e)).
  rewrite (Hsnd (fun x => Raise x) (Ok tt)). cbn [executor_calls omap list_omap].
  intros ->%list_elem_of_singleton. cbn.
  repeat split.
  - destruct (properties a) as [[|p ps]|]; reflexivity.
  - destruct (invocation_output e) as [o|]; cbn; [|discriminate].
    destruct (String.eqb_spec o ""); cbn; [discriminate|assumption].
  - destruct (invocation_output e) as [o|]; cbn; [|right; auto].
    destruct (String.eqb_spec o ""); cbn; [subst; right; auto|left; reflexivity].
Qed.

(** ** [validate_min_python_version] *)

(** The interpreter version [v] is at least [major_req.minor_req]. *)
Lemma version_check (v : version_info) (major_req minor_req : Z) :
  (if major_req <? major v then true
   else if major_req =? major v then minor_req <=? minor v else false) = true <->
  major_req < major v \/ (major_req = major v /\ minor_req <= minor v).
Proof.
  destruct (Z.ltb_spec major_req (major v)); [split; auto|].
  destruct (Z.eqb_spec major_req (major v)).
  - rewrite Z.leb_le. split; [auto|]. intros [?|[_ ?]]; [lia|assumption].
  - split; [discriminate|]. intros [?|[? _]]; [lia|contradiction].
Qed.

(** X13. Called with [exit_on_fail=False], [validate_min_python_version]
    never raises: it returns [True] exactly when the interpreter version is
    at least the requested one, major number first, then minor. *)
Theorem validate_version_reports (v : version_info) (major_req minor_req : Z)
    (error_msg : option string) :
  exists b,
    validate_min_python_version v major_req minor_req error_msg false = Ok b /\
    (b = true <->
     major_req < major v \/ (major_req = major v /\ minor_req <= minor v)).
Proof.
  pose proof (version_check v major_req minor_req) as Hc.
  unfold validate_min_python_version.
  destruct (major_req <? major v); [exists true; split; [reflexivity|exact Hc]|].
  rewrite andb_false_r. eexists. split; [reflexivity|exact Hc].
Qed.

(** X14. Called with [exit_on_fail=True], it returns [True] when the
    interpreter version is at least the requested one and otherwise exits
    with the caller's message, or with the default message when none (or
    an empty one) was given; it never returns [False]. *)
Theorem validate_version_exits (v : version_info) (major_req minor_req : Z)
    (error_msg : option string) :
  (major_req < major v \/ (major_req = major v /\ minor_req <= minor v) ->
   validate_min_python_version v major_req minor_req error_msg true = Ok true) /\
  (~ (major_req < major v \/ (major_req = major v /\ minor_req <= minor v)) ->
   validate_min_python_version v major_req minor_req error_msg true =
     Raise (SystemExit
              (match error_msg with
               | Some msg =>
                   if String.eqb msg "" then
                     "Python version " +:+ pretty major_req +:+ "." +:+
                     pretty minor_req +:+ " or higher required for this functionality."
                   else msg
               | None =>
                   "Python version " +:+ pretty major_req +:+ "." +:+
                   pretty minor_req +:+ " or higher required for this functionality."
               end))) /\
  validate_min_python_version v major_req minor_req error_msg true <> Ok false.
Proof.
  pose proof (version_check v major_req minor_req) as Hc.
  unfold validate_min_python_version.
  destruct (major_req <? major v).
  - repeat split; [|discriminate]. intros Hno. destruct Hno. now apply Hc.
  - destruct (if major_req =? major v then minor_req <=? minor v else false) eqn:Eres;
      cbn [negb andb].
    + repeat split; [|discriminate]. intros Hno. destruct Hno. now apply Hc.
    + repeat split; try discriminate.
      * intros Hyes. apply Hc in Hyes. discriminate.
      * intros _. destruct error_msg as [msg|]; cbn; [|reflexivity].
        now destruct (String.eqb msg "").
Qed.

(** ** Concrete calls *)

Lemma monitor_unsupported_python_witness :
  iot_central_monitor_events legacy_env (default_args "app") =
    (Raise (SystemExit "Python version 3.5 or higher required for this functionality."),
     []).
Proof.
  apply monitor_unsupported_python. unfold supported. cbn. lia.
Defined.

Lemma monitor_call_order_witness :
  exists xa rest,
    [ EnsureUamqp false; ImportEvents3; GetEventHubTarget "app"; Executor xa ] =
    (iot_central_monitor_events sample_env (default_args "app")).2 ++ rest /\
    rest = [].
Proof.
  destruct (monitor_call_order sample_env (default_args "app")) as (xa & rest & Heq & Hok).
  exists xa, rest. split; [exact Heq|]. apply Hok. reflexivity.
Defined.


Lemma monitor_forwards_arguments_witness :
  exists xa,
    executor_calls (iot_central_monitor_events sample_env (default_args "app")).2 = [xa] /\
    x_consumer_group xa = "$Default" /\ x_output xa <> "".
Proof.
  destruct (monitor_reaches_executor sample_env (default_args "app") "sb://app")
    as [xa Hxa].
  - split; [right; cbn; lia|split; reflexivity].
  - cbn. lia.
  - exists xa. split; [exact Hxa|].
    destruct (monitor_forwards_arguments sample_env (default_args "app") xa)
      as (Hcg & _ & _ & _ & Hout & _).
    + rewrite Hxa. apply list_elem_of_here.
    + split; [exact Hcg|exact Hout].
Defined.

Lemma validate_version_reports_witness :
  exists b,
    validate_min_python_version {| major := 2; minor := 7 |} 3 5 None false = Ok b /\
    b <> true.
Proof.
  destruct (validate_version_reports {| major := 2; minor := 7 |} 3 5 None)
    as (b & Hb & Hiff).
  exists b. split; [exact Hb|]. intros Htrue. apply Hiff in Htrue. cbn in Htrue. lia.
Defined.

Lemma validate_version_exits_witness :
  validate_min_python_version {| major := 3; minor := 8 |} 3 5 None true = Ok true /\
  validate_min_python_version {| major := 2; minor := 7 |} 3 5 (Some "too old") true =
    Raise (SystemExit "too old").
Proof.
  split.
  - apply (proj1 (validate_version_exits {| major := 3; minor := 8 |} 3 5 None)).
    right. cbn. lia.
  - apply (proj1 (proj2 (validate_version_exits {| major := 2; minor := 7 |} 3 5
                           (Some "too old")))).
    cbn. lia.
Defined.

End CentralExtra.

(** * Properties of the utility helpers *)

Module UtilityFacts.
Import Utility StringFacts.

(** ** [trim_from_start] *)

Lemma prefix_append (p s : string) : String.prefix p (p +:+ s) = true.
Proof.
  induction p as [|c p IH]; [now destruct s|].
  rewrite append_cons. cbn. now destruct (Ascii.ascii_dec c c).
Qed.

Lemma string_drop_append (p s : string) : string_drop (String.length p) (p +:+ s) = s.
Proof. induction p as [|c p IH]; [reflexivity|]. rewrite append_cons. exact IH. Qed.

Lemma prefix_split (p s : string) :
  String.prefix p s = true -> s = p +:+ string_drop (String.length p) s.
Proof.
  revert s. induction p as [|c p IH]; intros s; [reflexivity|].
  destruct s as [|c' s]; cbn; [discriminate|].
  destruct (Ascii.ascii_dec c c') as [<-|]; [|discriminate].
  intros Hp. rewrite append_cons. f_equal. now apply IH.
Qed.

(** X15. [trim_from_start] undoes one prepending of [substring]: applied to
    [substring + rest] it returns [rest]; a string that does not start
    with [substring] comes back unchanged. *)
Theorem trim_from_start_spec (s substring rest : string) :
  trim_from_start (substring +:+ rest) substring = rest /\
  ((forall tail, s <> substring +:+ tail) -> trim_from_start s substring = s).
Proof.
  unfold trim_from_start, startswith. split.
  - now rewrite prefix_append, string_drop_append.
  - intros Hno. destruct (String.prefix substring s) eqn:Hp; [|reflexivity].
    apply prefix_split in Hp. now destruct (Hno _ Hp).
Qed.

Lemma trim_from_start_spec_witness :
  trim_from_start "iot hub show" "iot " = "hub show" /\
  trim_from_start "dps list" "iot " = "dps list".
Proof.
  split.
  - apply (proj1 (trim_from_start_spec "" "iot " "hub show")).
  - apply (proj2 (trim_from_start_spec "dps list" "iot " "")).
    intros tail. discriminate.
Defined.

(** Only one copy is removed. *)
Example trim_from_start_once : trim_from_start "aab" "a" = "ab".
Proof. reflexivity. Qed.

(** ** [validate_key_value_pairs] *)

Lemma contains_append (c : Ascii.ascii) (a b : string) :
  contains c (a +:+ b) = contains c a || contains c b.
Proof.
  induction a as [|c' a IH]; [reflexivity|].
  rewrite append_cons. cbn. now rewrite IH, orb_assoc.
Qed.

Lemma split_not_nil (sep : Ascii.ascii) (s : string) : split sep s <> [].
Proof.
  induction s as [|c s IH]; cbn; [discriminate|].
  destruct (Ascii.eqb c sep); [discriminate|].
  now destruct (split sep s).
Qed.

Lemma split_plain (sep : Ascii.ascii) (a : string) :
  contains sep a = false -> split sep a = [a].
Proof.
  induction a as [|c a IH]; cbn; [reflexivity|].
  intros [Hc Ha]%orb_false_iff. rewrite Hc, (IH Ha). reflexivity.
Qed.

Lemma split_append (sep : Ascii.ascii) (a b : string) :
  contains sep a = false -> split sep (a +:+ String sep b) = a :: split sep b.
Proof.
  induction a as [|c a IH].
  - intros _. change ("" +:+ String sep b) with (String sep b). cbn.
    now rewrite Ascii.eqb_refl.
  - cbn [contains]. intros [Hc Ha]%orb_false_iff.
    rewrite append_cons. cbn [split]. rewrite Hc, (IH Ha). reflexivity.
Qed.

Lemma split_join (sep : Ascii.ascii) (pieces : list string) :
  pieces <> [] -> Forall (fun p => contains sep p = false) pieces ->
  split sep (join (String sep "") pieces) = pieces.
Proof.
  induction pieces as [|p pieces IH]; [congruence|].
  intros _ Hall. apply Forall_cons in Hall as [Hp Hall].
  destruct pieces as [|q pieces]; [now apply split_plain|].
  change (join (String sep "") (p :: q :: pieces))
    with (p +:+ String sep (join (String sep "") (q :: pieces))).
  rewrite (split_append _ _ _ Hp). f_equal. now apply IH.
Qed.

Lemma split_once_pair (sep : Ascii.ascii) (k v : string) :
  contains sep k = false -> split_once sep (k +:+ String sep v) = [k; v].
Proof.
  induction k as [|c k IH].
  - intros _. change ("" +:+ String sep v) with (String sep v). cbn.
    now rewrite Ascii.eqb_refl.
  - cbn [contains]. intros [Hc Hk]%orb_false_iff.
    rewrite append_cons. cbn [split_once]. rewrite Hc, (IH Hk). reflexivity.
Qed.

Lemma split_once_two (sep : Ascii.ascii) (x : string) :
  contains sep x = true -> exists k v, split_once sep x = [k; v].
Proof.
  induction x as [|c x IH]; cbn; [discriminate|].
  destruct (Ascii.eqb c sep); cbn; [eauto|].
  intros Hx. destruct (IH Hx) as (k & v & ->). eauto.
Qed.

Lemma contains_split (c sep : Ascii.ascii) (s : string) :
  contains c s = false -> Forall (fun p => contains c p = false) (split sep s).
Proof.
  induction s as [|c' s IH]; cbn.
  - intros _. now repeat constructor.
  - intros [Hc Hs]%orb_false_iff. specialize (IH Hs).
    destruct (Ascii.eqb c' sep); [now constructor|].
    destruct (split sep s) as [|p ps]; [repeat constructor; cbn; now rewrite Hc|].
    apply Forall_cons in IH as [Hp Hps]. constructor; [|assumption].
    cbn. now rewrite Hc, Hp.
Qed.

Lemma dict_of_two (xs : list string) (acc : gmap string string) :
  Forall (fun x => contains equals_sign x = true) xs ->
  exists d, dict_of (List.map (split_once equals_sign) xs) acc = Ok d.
Proof.
  revert acc. induction xs as [|x xs IH]; intros acc Hall; cbn; [eauto|].
  apply Forall_cons in Hall as [Hx Hall].
  destruct (split_once_two _ _ Hx) as (k & v & ->). now apply IH.
Qed.

Lemma dict_of_rendered (kvs : list (string * string)) (acc : gmap string string) :
  Forall (fun kv => contains equals_sign kv.1 = false) kvs ->
  dict_of (List.map (split_once equals_sign)
             (List.map (fun kv => kv.1 +:+ "=" +:+ kv.2) kvs)) acc =
  Ok (fold_left (fun acc kv => <[kv.1 := kv.2]> acc) kvs acc).
Proof.
  revert acc. induction kvs as [|[k v] kvs IH]; intros acc Hall; [reflexivity|].
  apply Forall_cons in Hall as [Hk Hall]. cbn [List.map fst snd fold_left].
  change (k +:+ "=" +:+ v) with (k +:+ String equals_sign v).
  rewrite (split_once_pair _ _ _ Hk). cbn [dict_of]. now apply IH.
Qed.

Lemma filter_all {A : Type} (f : A -> bool) (l : list A) :
  Forall (fun x => f x = true) l -> List.filter f l = l.
Proof.
  induction 1 as [|x l Hx _ IH]; cbn; [reflexivity|]. now rewrite Hx, IH.
Qed.

Lemma filter_none {A : Type} (f : A -> bool) (l : list A) :
  Forall (fun x => f x = false) l -> List.filter f l = [].
Proof.
  induction 1 as [|x l Hx _ IH]; cbn; [reflexivity|]. now rewrite Hx.
Qed.

Lemma dict_of_pairs_last (kvs : list (string * string)) :
  dict_of_pairs kvs = list_to_map (reverse kvs).
Proof.
  unfold dict_of_pairs. induction kvs as [|[k v] kvs IH] using rev_ind; [reflexivity|].
  rewrite fold_left_app, reverse_app. cbn. now rewrite IH.
Qed.

(** X16. [validate_key_value_pairs] never raises: every piece it keeps
    contains an [=] and so splits into exactly a key and a value.  It
    returns [None] for no text and for the empty text only. *)
Theorem validate_key_value_pairs_total (text : option string) :
  exists r,
    validate_key_value_pairs text = Ok r /\
    (r = None <-> text = None \/ text = Some "").
Proof.
  destruct text as [s|]; cbn; [|exists None; split; [reflexivity|split; auto]].
  destruct (String.eqb_spec s "") as [->|Hs].
  - exists None. split; [reflexivity|split; auto].
  - destruct (dict_of_two (List.filter (contains equals_sign) (split semicolon s)) ∅)
      as [d Hd].
    { apply List.Forall_forall. intros x [_ Hx]%filter_In. exact Hx. }
    rewrite Hd. exists (Some d). split; [reflexivity|].
    split; [discriminate|]. intros [?|[= ?]]; [discriminate|contradiction].
Qed.

(** X17. Parsing undoes rendering: for a non-empty list of pairs whose keys
    hold neither [;] nor [=] and whose values hold no [;] (they may hold
    [=]), the text [k1=v1;k2=v2;...] parses to the dictionary of those
    pairs, in which the last pair with a given key wins. *)
Theorem validate_key_value_pairs_roundtrip (kvs : list (string * string)) :
  kvs <> [] ->
  Forall (fun kv => contains semicolon kv.1 = false /\
                    contains equals_sign kv.1 = false /\
                    contains semicolon kv.2 = false) kvs ->
  validate_key_value_pairs (Some (render_pairs kvs)) =
    Ok (Some (list_to_map (reverse kvs))).
Proof.
  intros Hne Hall. unfold validate_key_value_pairs, render_pairs.
  set (pieces := List.map (fun kv => kv.1 +:+ "=" +:+ kv.2) kvs).
  assert (Forall (fun p => contains semicolon p = false) pieces) as Hsemi.
  { apply Forall_map. eapply Forall_impl; [exact Hall|].
    intros [k v] (Hk & _ & Hv). cbn [fst snd] in Hk, Hv. unfold compose. cbn [fst snd].
    rewrite !contains_append, Hk, Hv. reflexivity. }
  assert (Forall (fun p => contains equals_sign p = true) pieces) as Heq.
  { apply Forall_map. apply List.Forall_forall. intros [k v] _.
    unfold compose. cbn [fst snd].
    rewrite !contains_append. cbn. now rewrite orb_true_r. }
  assert (pieces <> []) as Hpieces by (subst pieces; now destruct kvs).
  assert (split semicolon (join ";" pieces) = pieces) as Hsplit
    by (now apply (split_join semicolon)).
  destruct (String.eqb_spec (join ";" pieces) "") as [Hempty|_].
  { rewrite Hempty in Hsplit. cbn in Hsplit. subst pieces.
    destruct kvs as [|[k v] kvs]; [congruence|]. cbn in Hsplit.
    destruct kvs; injection Hsplit as Hkv; destruct k; discriminate. }
  rewrite Hsplit, (filter_all _ _ Heq). subst pieces.
  rewrite dict_of_rendered.
  - fold (dict_of_pairs kvs). now rewrite dict_of_pairs_last.
  - eapply Forall_impl; [exact Hall|]. now intros kv (_ & ? & _).
Qed.

Lemma validate_key_value_pairs_roundtrip_witness :
  validate_key_value_pairs (Some "a=1;b=x=y;a=2") =
    Ok (Some (list_to_map [("a", "2"); ("b", "x=y"); ("a", "1")])).
Proof.
  apply (validate_key_value_pairs_roundtrip [("a", "1"); ("b", "x=y"); ("a", "2")]).
  - discriminate.
  - repeat constructor.
Defined.

(** X18. A non-empty text without any [=] holds no pair: the result is
    the empty dictionary, not [None]. *)
Theorem validate_key_value_pairs_no_pair (s : string) :
  s <> "" -> contains equals_sign s = false ->
  validate_key_value_pairs (Some s) = Ok (Some ∅).
Proof.
  intros Hs Hno. unfold validate_key_value_pairs.
  destruct (String.eqb_spec s ""); [contradiction|].
  now rewrite (filter_none _ _ (contains_split _ semicolon _ Hno)).
Qed.

Lemma validate_key_value_pairs_no_pair_witness :
  validate_key_value_pairs (Some "tag;other") = Ok (Some ∅).
Proof.
  apply validate_key_value_pairs_no_pair; [discriminate|reflexivity].
Defined.

(** ** [execute_onthread] *)

Section OnThreadFacts.

Context {M A : Type}.
Variable cancelled : nat -> bool.
Variable spec : thread_spec M A.

Lemma method_wrap_S fuel n runs0 :
  method_wrap (S fuel) cancelled spec n runs0 =
  if cancelled n then
    {| ended := true; runs := runs0; thread_trace := [Wait (th_interval spec)] |}
  else if truthy_Z (th_max_runs spec) && (default 0 (th_max_runs spec) <=? runs0) then
    {| ended := true; runs := runs0; thread_trace := [Wait (th_interval spec)] |}
  else
    let r := method_wrap fuel cancelled spec (S n) (runs0 + 1) in
    {| ended := ended r; runs := runs r;
       thread_trace := Wait (th_interval spec)
                       :: Call (th_method spec) (th_args spec)
                       :: thread_trace r |}.
Proof. reflexivity. Qed.

Lemma method_wrap_calls_bound fuel n runs0 m :
  th_max_runs spec = Some m -> m <> 0 ->
  Z.of_nat (calls (thread_trace (method_wrap fuel cancelled spec n runs0)))
  <= Z.max 0 (m - runs0).
Proof.
  intros Hm Hnz. revert n runs0.
  unfold calls.
  induction fuel as [|fuel IH]; intros n runs0;
    [cbn [method_wrap thread_trace List.filter length]; lia|].
  rewrite method_wrap_S.
  destruct (cancelled n); [cbn [thread_trace List.filter is_call length]; lia|].
  rewrite Hm. change (default 0 (Some m)) with m. cbn [truthy_Z].
  replace (m =? 0) with false by (symmetry; now apply Z.eqb_neq).
  cbn [negb andb].
  destruct (Z.leb_spec m runs0); [cbn [thread_trace List.filter is_call length]; lia|].
  cbv zeta. cbn [thread_trace List.filter is_call length].
  specialize (IH (S n) (runs0 + 1)). lia.
Qed.

Lemma method_wrap_runs_out fuel n runs0 m :
  (forall k, cancelled k = false) ->
  th_max_runs spec = Some m -> 0 < m -> runs0 <= m ->
  (Z.to_nat (m - runs0) < fuel)%nat ->
  method_wrap fuel cancelled spec n runs0 =
    {| ended := true; runs := m;
       thread_trace := rounds (Z.to_nat (m - runs0)) spec ++ [Wait (th_interval spec)] |}.
Proof.
  intros Hnever Hm Hpos. revert n runs0.
  induction fuel as [|fuel IH]; intros n runs0 Hle Hfuel; [lia|].
  rewrite method_wrap_S, Hnever, Hm. change (default 0 (Some m)) with m. cbn [truthy_Z].
  replace (m =? 0) with false by (symmetry; apply Z.eqb_neq; lia).
  cbn [negb andb]. destruct (Z.leb_spec m runs0).
  - replace runs0 with m by lia. now rewrite Z.sub_diag.
  - cbv zeta. rewrite (IH (S n) (runs0 + 1)) by lia. cbn [ended runs thread_trace].
    replace (Z.to_nat (m - runs0)) with (S (Z.to_nat (m - (runs0 + 1)))) by lia.
    reflexivity.
Qed.

Lemma method_wrap_cancel fuel n runs0 k :
  (forall j, (j < k)%nat -> cancelled (n + j) = false) ->
  cancelled (n + k) = true ->
  (forall m, th_max_runs spec = Some m -> m = 0 \/ runs0 + Z.of_nat k <= m) ->
  (k < fuel)%nat ->
  method_wrap fuel cancelled spec n runs0 =
    {| ended := true; runs := runs0 + Z.of_nat k;
       thread_trace := rounds k spec ++ [Wait (th_interval spec)] |}.
Proof.
  revert fuel n runs0. induction k as [|k IH]; intros fuel n runs0 Hbefore Hat Hbound Hfuel;
    (destruct fuel as [|fuel]; [lia|]); rewrite method_wrap_S.
  - rewrite Nat.add_0_r in Hat. rewrite Hat. now rewrite Z.add_0_r.
  - rewrite <- (Nat.add_0_r n) at 1. rewrite (Hbefore 0%nat) by lia.
    assert (truthy_Z (th_max_runs spec) && (default 0 (th_max_runs spec) <=? runs0) = false)
      as ->.
    { destruct (th_max_runs spec) as [m|] eqn:Hm; [|reflexivity].
      change (default 0 (Some m)) with m. cbn [truthy_Z].
      destruct (Hbound m eq_refl) as [->|Hle]; [reflexivity|].
      apply andb_false_iff. right. apply Z.leb_gt. lia. }
    cbv zeta. rewrite (IH fuel (S n) (runs0 + 1)).
    + cbn [ended runs thread_trace rounds round app]. f_equal. lia.
    + intros j Hj. replace (S n + j)%nat with (n + S j)%nat by lia. apply Hbefore. lia.
    + now replace (S n + k)%nat with (n + S k)%nat by lia.
    + intros m Hm. destruct (Hbound m Hm); [now left|right; lia].
    + lia.
Qed.

Lemma method_wrap_unbounded fuel n runs0 :
  truthy_Z (th_max_runs spec) = false ->
  (forall j, (j < fuel)%nat -> cancelled (n + j) = false) ->
  method_wrap fuel cancelled spec n runs0 =
    {| ended := false; runs := runs0 + Z.of_nat fuel; thread_trace := rounds fuel spec |}.
Proof.
  intros Hfalsy. revert n runs0.
  induction fuel as [|fuel IH]; intros n runs0 Hnever.
  - cbn. now rewrite Z.add_0_r.
  - rewrite method_wrap_S. rewrite <- (Nat.add_0_r n) at 1.
    rewrite (Hnever 0%nat) by lia. rewrite Hfalsy. cbn [andb]. cbv zeta.
    rewrite (IH (S n) (runs0 + 1)).
    + cbn [ended runs thread_trace rounds round app]. f_equal. lia.
    + intros j Hj. replace (S n + j)%nat with (n + S j)%nat by lia. apply Hnever. lia.
Qed.

Lemma calls_rounds k : calls (rounds k spec ++ [Wait (th_interval spec)]) = k.
Proof.
  unfold calls. induction k as [|k IH]; [reflexivity|].
  cbn [rounds round app List.filter is_call length]. now rewrite IH.
Qed.

(** X19. With a [max_runs] that is not 0 (nor absent), the thread never
    calls the method more than [max_runs] times, whatever the cancellation
    token does; a negative [max_runs] allows no call at all. *)
Theorem method_wrap_bounded fuel m :
  th_max_runs spec = Some m -> m <> 0 ->
  Z.of_nat (calls (thread_trace (method_wrap fuel cancelled spec 0 0))) <= Z.max 0 m.
Proof.
  intros Hm Hnz.
  pose proof (method_wrap_calls_bound fuel 0 0 m Hm Hnz) as Hb.
  now rewrite Z.sub_0_r in Hb.
Qed.

(** X20. A thread with a positive [max_runs] that is never cancelled ends
    by itself: it waits, calls, waits, calls, ... exactly [max_runs] times,
    and then waits one more interval before it notices the bound and
    stops. *)
Theorem method_wrap_runs_to_bound fuel m :
  (forall k, cancelled k = false) ->
  th_max_runs spec = Some m -> 0 < m -> (Z.to_nat m < fuel)%nat ->
  method_wrap fuel cancelled spec 0 0 =
    {| ended := true; runs := m;
       thread_trace := rounds (Z.to_nat m) spec ++ [Wait (th_interval spec)] |} /\
  calls (rounds (Z.to_nat m) spec ++ [Wait (th_interval spec)]) = Z.to_nat m.
Proof.
  intros Hnever Hm Hpos Hfuel. split; [|apply calls_rounds].
  rewrite (method_wrap_runs_out fuel 0 0 m Hnever Hm Hpos); [|lia|].
  - now rewrite Z.sub_0_r.
  - now rewrite Z.sub_0_r.
Qed.

(** X21. When the [k]-th wait is the first one that the cancellation token
    ends, and [max_runs] (if it bounds at all) is at least [k], the thread
    has called the method exactly [k] times, each time after a full wait,
    and stops without a further call. *)
Theorem method_wrap_cancelled fuel k :
  (forall j, (j < k)%nat -> cancelled j = false) ->
  cancelled k = true ->
  (forall m, th_max_runs spec = Some m -> m = 0 \/ Z.of_nat k <= m) ->
  (k < fuel)%nat ->
  method_wrap fuel cancelled spec 0 0 =
    {| ended := true; runs := Z.of_nat k;
       thread_trace := rounds k spec ++ [Wait (th_interval spec)] |} /\
  calls (rounds k spec ++ [Wait (th_interval spec)]) = k.
Proof.
  intros Hbefore Hat Hbound Hfuel. split; [|apply calls_rounds].
  now rewrite (method_wrap_cancel fuel 0 0 k).
Qed.

(** X22. [max_runs] 0 or absent means no bound, not no run: as long as the
    token is not set the thread keeps calling the method, once per
    interval, and does not end. *)
Theorem method_wrap_no_bound fuel :
  th_max_runs spec = None \/ th_max_runs spec = Some 0 ->
  (forall j, (j < fuel)%nat -> cancelled j = false) ->
  method_wrap fuel cancelled spec 0 0 =
    {| ended := false; runs := Z.of_nat fuel; thread_trace := rounds fuel spec |}.
Proof.
  intros Hfalsy Hnever.
  rewrite (method_wrap_unbounded fuel 0 0).
  - reflexivity.
  - now destruct Hfalsy as [-> | ->].
  - exact Hnever.
Qed.

End OnThreadFacts.

(** X23. [execute_onthread] starts a thread exactly when a method is given,
    and raises [ValueError] otherwise.  The started thread waits the given
    interval, or 2 when none or 0 was given, so never 0; it calls the given
    method with the given arguments, or with none. *)
Theorem execute_onthread_starts {M A : Type} (kw : onthread_kwargs M A) :
  (kw_method kw = None ->
   exists msg, execute_onthread kw = Raise (ValueError msg)) /\
  (forall method, kw_method kw = Some method ->
   exists spec,
     execute_onthread kw = Ok spec /\
     th_method spec = method /\
     th_interval spec <> 0 /\
     (kw_interval kw = Some (th_interval spec) \/
      (th_interval spec = 2 /\ (kw_interval kw = None \/ kw_interval kw = Some 0))) /\
     th_args spec = default [] (kw_args kw) /\
     th_max_runs spec = kw_max_runs kw).
Proof.
  unfold execute_onthread. split.
  - intros ->. eauto.
  - intros method ->. eexists. split; [reflexivity|]. cbn.
    destruct (kw_interval kw) as [i|]; cbn.
    + destruct (Z.eqb_spec i 0) as [->|Hi]; cbn; repeat split; auto; lia.
    + repeat split; auto; lia.
Qed.

(** ** [dict_clean] *)

Section DictClean.

Context {A : Type}.

(** Induction on values, with the hypothesis for every value of a
    dictionary. *)
Lemma pyval_dict_ind (P : pyval A -> Prop) :
  P PNone ->
  (forall a, P (PAtom a)) ->
  (forall items, P (PList items)) ->
  (forall entries, Forall (fun kv => P kv.2) entries -> P (PDict entries)) ->
  forall v, P v.
Proof.
  intros HN HA HL HD.
  fix IH 1. intros [|a|items|entries]; [exact HN|apply HA|apply HL|].
  apply HD. induction entries as [|[k x] entries IHe]; constructor; [apply IH|exact IHe].
Qed.

Lemma dict_clean_dict (entries : list (string * pyval A)) :
  dict_clean (PDict entries) = PDict (clean_entries entries).
Proof.
  cbn [dict_clean]. f_equal.
  induction entries as [|[k v] entries IH]; [reflexivity|].
  cbn [clean_entries]. now rewrite <- IH.
Qed.

Lemma is_none_dict_clean (v : pyval A) : is_none (dict_clean v) = is_none v.
Proof. now destruct v. Qed.

Lemma none_free_dict (entries : list (string * pyval A)) :
  none_free (PDict entries) <->
  Forall (fun kv => is_none kv.2 = false /\ none_free kv.2) entries.
Proof.
  induction entries as [|[k x] entries IH].
  - split; [constructor|intros _; exact I].
  - change (none_free (PDict ((k, x) :: entries)))
      with (is_none x = false /\ none_free x /\ none_free (PDict entries)).
    rewrite Forall_cons. cbn [snd]. tauto.
Qed.

(** X24. [dict_clean] is idempotent: cleaning a cleaned value changes
    nothing. *)
Theorem dict_clean_idempotent (v : pyval A) :
  dict_clean (dict_clean v) = dict_clean v.
Proof.
  induction v as [|a|items|entries IH] using pyval_dict_ind; try reflexivity.
  rewrite !dict_clean_dict. f_equal.
  induction IH as [|[k x] entries Hx _ IHe]; [reflexivity|].
  cbn [clean_entries snd] in *. destruct (is_none x) eqn:Hnone; [exact IHe|].
  cbn [clean_entries]. rewrite is_none_dict_clean, Hnone, Hx. now f_equal.
Qed.

(** X25. In a cleaned value no dictionary, at any depth of dictionary
    nesting, maps a key to [None]; and a value that already has this
    property is returned as it is. *)
Theorem dict_clean_none_free (v : pyval A) :
  none_free (dict_clean v) /\ (none_free v -> dict_clean v = v).
Proof.
  induction v as [|a|items|entries IH] using pyval_dict_ind;
    try (split; [exact I|reflexivity]).
  rewrite dict_clean_dict, !none_free_dict. split.
  - induction IH as [|[k x] entries [Hx _] _ IHe]; [constructor|].
    cbn [clean_entries snd] in *. destruct (is_none x) eqn:Hnone; [exact IHe|].
    constructor; [|exact IHe]. cbn [snd]. now rewrite is_none_dict_clean.
  - intros Hfree. f_equal.
    induction IH as [|[k x] entries [_ Hx] _ IHe]; [reflexivity|].
    apply Forall_cons in Hfree as [[Hnone Hfx] Hfree]. cbn [clean_entries snd] in *.
    rewrite Hnone, (Hx Hfx), (IHe Hfree). reflexivity.
Qed.

(** X26. Cleaning a dictionary keeps exactly the keys whose value is not
    [None], in their order, and cleans the values kept; values inside a
    list are not visited. *)
Theorem dict_clean_keys (entries : list (string * pyval A)) :
  exists kept,
    dict_clean (PDict entries) = PDict kept /\
    List.map fst kept =
      List.map fst (List.filter (fun kv => negb (is_none kv.2)) entries) /\
    (forall k x, (k, x) ∈ kept ->
       exists x0, (k, x0) ∈ entries /\ is_none x0 = false /\ x = dict_clean x0).
Proof.
  exists (clean_entries entries). split; [apply dict_clean_dict|]. split.
  - induction entries as [|[k x] entries IH]; [reflexivity|].
    cbn [clean_entries List.filter snd]. destruct (is_none x); cbn; [exact IH|].
    now rewrite IH.
  - induction entries as [|[k0 x0] entries IH]; intros k x Hin; cbn [clean_entries] in Hin.
    + now apply elem_of_nil in Hin.
    + destruct (is_none x0) eqn:Hnone.
      * destruct (IH k x Hin) as (y & Hy & ?). exists y. split; [now right|assumption].
      * apply elem_of_cons in Hin as [[= -> ->]|Hin].
        -- exists x0. split; [now left|auto].
        -- destruct (IH k x Hin) as (y & Hy & ?). exists y. split; [now right|assumption].
Qed.

End DictClean.

(** A [None] inside a list survives, and so does a dictionary there. *)
Example dict_clean_leaves_lists :
  dict_clean (PDict [("a", PNone); ("b", PAtom 1);
                     ("c", PDict [("d", PNone)]);
                     ("e", PList [PNone; PDict [("f", PNone)]])]) =
  PDict [("b", PAtom 1); ("c", PDict []);
         ("e", PList [PNone; PDict [("f", PNone)]])].
Proof. reflexivity. Qed.

(** ** Concrete cases *)

Lemma validate_key_value_pairs_total_witness :
  exists r, validate_key_value_pairs (Some "") = Ok r /\ r = None.
Proof.
  destruct (validate_key_value_pairs_total (Some "")) as (r & Hr & Hiff).
  exists r. split; [exact Hr|]. apply Hiff. now right.
Defined.

Lemma method_wrap_bounded_witness :
  Z.of_nat (calls (thread_trace
              (method_wrap 10 (fun _ => false) (sample_spec (Some 3)) 0 0)))
  <= Z.max 0 3.
Proof.
  apply (method_wrap_bounded (fun _ => false) (sample_spec (Some 3)) 10 3).
  - reflexivity.
  - discriminate.
Defined.

Lemma method_wrap_runs_to_bound_witness :
  method_wrap 5 (fun _ => false) (sample_spec (Some 3)) 0 0 =
    {| ended := true; runs := 3;
       thread_trace := rounds (Z.to_nat 3) (sample_spec (Some 3)) ++ [Wait 2] |} /\
  calls (rounds (Z.to_nat 3) (sample_spec (Some 3)) ++ [Wait 2]) = Z.to_nat 3.
Proof.
  apply (method_wrap_runs_to_bound (fun _ => false) (sample_spec (Some 3)) 5 3).
  - intros k. reflexivity.
  - reflexivity.
  - lia.
  - cbn. lia.
Defined.

Lemma method_wrap_cancelled_witness :
  method_wrap 5 (fun n => Nat.eqb n 2) (sample_spec None) 0 0 =
    {| ended := true; runs := 2;
       thread_trace := rounds 2 (sample_spec None) ++ [Wait 2] |} /\
  calls (rounds 2 (sample_spec None) ++ [Wait 2]) = 2%nat.
Proof.
  apply (method_wrap_cancelled (fun n => Nat.eqb n 2) (sample_spec None) 5 2).
  - intros [|[|j]] Hj; [reflexivity|reflexivity|lia].
  - reflexivity.
  - intros m. discriminate.
  - lia.
Defined.

Lemma method_wrap_no_bound_witness :
  method_wrap 4 (fun _ => false) (sample_spec (Some 0)) 0 0 =
    {| ended := false; runs := 4; thread_trace := rounds 4 (sample_spec (Some 0)) |}.
Proof.
  apply (method_wrap_no_bound (fun _ => false) (sample_spec (Some 0)) 4).
  - now right.
  - intros j _. reflexivity.
Defined.

Lemma execute_onthread_starts_witness :
  (exists msg,
     execute_onthread (M := unit) (A := Z)
       {| kw_interval := Some 5; kw_method := None; kw_args := None;
          kw_max_runs := None; kw_return_handle := None |} = Raise (ValueError msg)) /\
  (exists spec,
     execute_onthread (M := unit) (A := Z)
       {| kw_interval := Some 0; kw_method := Some tt; kw_args := None;
          kw_max_runs := Some 3; kw_return_handle := None |} = Ok spec /\
     th_interval spec = 2).
Proof.
  split.
  - apply (proj1 (execute_onthread_starts (M := unit) (A := Z)
                    {| kw_interval := Some 5; kw_method := None; kw_args := None;
                       kw_max_runs := None; kw_return_handle := None |})).
    reflexivity.
  - destruct (proj2 (execute_onthread_starts (M := unit) (A := Z)
                       {| kw_interval := Some 0; kw_method := Some tt; kw_args := None;
                          kw_max_runs := Some 3; kw_return_handle := None |}) tt eq_refl)
      as (spec & Hspec & _ & Hnz & [Hgiven|[Htwo _]] & _).
    + exfalso. apply Hnz. cbn in Hgiven. congruence.
    + exists spec. split; [exact Hspec|exact Htwo].
Defined.

Lemma dict_clean_none_free_witness :
  dict_clean (PDict [("a", PAtom 1); ("b", PDict [("c", PAtom 2)])]) =
  PDict [("a", PAtom 1); ("b", PDict [("c", PAtom 2)])].
Proof.
  apply (proj2 (dict_clean_none_free (PDict [("a", PAtom 1); ("b", PDict [("c", PAtom 2)])]))).
  cbn. tauto.
Defined.

Lemma dict_clean_keys_witness :
  exists kept,
    dict_clean (PDict [("a", PNone); ("b", PAtom 1)]) = PDict kept /\
    List.map fst kept = ["b"].
Proof.
  destruct (dict_clean_keys [("a", PNone); ("b", PAtom 1)]) as (kept & Hk & Hkeys & _).
  exists kept. split; [exact Hk|exact Hkeys].
Defined.

End UtilityFacts.
